(** * roulette_sample: the weighted sampler and the 1000-trial simulation

    A shallow embedding of [src/main.js]: the logic layer ([weightedRandom])
    and the parts of the presentation layer that call it (the normalisation
    of the options done by [spin] and [runSimulation], the trial loop and
    the result lines of [runSimulation]).

    Modelling conventions.
    - A JavaScript Number is a [number]: a finite value, one of the two
      infinities, or NaN.  Finite values are rationals and finite
      arithmetic is exact: IEEE-754 rounding and the sign of zero are not
      modelled, and [parseInt] returns the integer it reads, however large.
    - [Math.random()] is an oracle stored in the [world]: the n-th call
      returns [rng w n]; statements that need it assume [0 <= rng w n < 1].
    - The array passed to [weightedRandom] lives in the [world] (field
      [items]), as does the [options] array of the enclosing scope, so that
      a write to either would be visible in the final world.
    - A plain object [{}] used as a dictionary is an association list of its
      own properties in creation order.
    - Strings are byte strings; [toFixed] and the text of the result
      paragraphs are not modelled, a paragraph keeps the numbers shown. *)

From Stdlib Require Import QArith Qround ZArith List String Ascii Bool Lia Lqa.
From Stdlib Require Import DecimalString DecimalPos DecimalN.
Import ListNotations.

Open Scope Q_scope.

(** ** JavaScript numbers *)

Inductive number : Type :=
| Fin (q : Q)
| PosInf
| NegInf
| NaN.

Definition num_of_nat (n : nat) : number := Fin (inject_Z (Z.of_nat n)).
Definition num_of_Z (z : Z) : number := Fin (inject_Z z).

Definition neg (a : number) : number :=
  match a with
  | Fin x => Fin (- x)
  | PosInf => NegInf
  | NegInf => PosInf
  | NaN => NaN
  end.

(** [a + b] *)
Definition add (a b : number) : number :=
  match a, b with
  | NaN, _ | _, NaN => NaN
  | Fin x, Fin y => Fin (x + y)
  | PosInf, NegInf | NegInf, PosInf => NaN
  | PosInf, _ | _, PosInf => PosInf
  | NegInf, _ | _, NegInf => NegInf
  end.

(** [a - b] *)
Definition sub (a b : number) : number := add a (neg b).

Definition scale_inf (positive : bool) (x : Q) : number :=
  match x ?= 0 with
  | Gt => if positive then PosInf else NegInf
  | Lt => if positive then NegInf else PosInf
  | Eq => NaN
  end.

(** [a * b] *)
Definition mul (a b : number) : number :=
  match a, b with
  | NaN, _ | _, NaN => NaN
  | Fin x, Fin y => Fin (x * y)
  | Fin x, PosInf | PosInf, Fin x => scale_inf true x
  | Fin x, NegInf | NegInf, Fin x => scale_inf false x
  | PosInf, PosInf | NegInf, NegInf => PosInf
  | PosInf, NegInf | NegInf, PosInf => NegInf
  end.

(** [a / b] (every zero is the positive zero) *)
Definition div (a b : number) : number :=
  match a, b with
  | NaN, _ | _, NaN => NaN
  | Fin x, Fin y =>
      if Qeq_bool y 0 then scale_inf true x else Fin (x / y)
  | Fin _, _ => Fin 0
  | PosInf, Fin y => match y ?= 0 with Lt => NegInf | _ => PosInf end
  | NegInf, Fin y => match y ?= 0 with Lt => PosInf | _ => NegInf end
  | _, _ => NaN
  end.

(** [a < b]: false as soon as one side is NaN *)
Definition ltb (a b : number) : bool :=
  match a, b with
  | NaN, _ | _, NaN => false
  | Fin x, Fin y => match x ?= y with Lt => true | _ => false end
  | NegInf, NegInf | PosInf, _ => false
  | NegInf, _ => true
  | Fin _, PosInf => true
  | Fin _, NegInf => false
  end.

(** [a <= b]: false as soon as one side is NaN *)
Definition leb (a b : number) : bool :=
  match a, b with
  | NaN, _ | _, NaN => false
  | Fin x, Fin y => match x ?= y with Gt => false | _ => true end
  | NegInf, _ | _, PosInf => true
  | PosInf, _ => false
  | Fin _, NegInf => false
  end.

(** [a > b] *)
Definition gtb (a b : number) : bool := ltb b a.

(** [Math.floor] *)
Definition Math_floor (a : number) : number :=
  match a with
  | Fin x => Fin (inject_Z (Qfloor x))
  | other => other
  end.

(** ToBoolean on a number: NaN and zero are falsy. *)
Definition truthy (a : number) : bool :=
  match a with
  | NaN => false
  | Fin x => negb (Qeq_bool x 0)
  | _ => true
  end.

(** [a || b] on numbers *)
Definition or_else (a b : number) : number := if truthy a then a else b.



(** ** Items, results and the world *)

(** An element of the array given to [weightedRandom]: [{name, weight}]. *)
Record item : Type := mkItem { name : string; weight : number }.

(** What a call can evaluate to: [null], [undefined] (an array read out of
    range) or one of the item objects. *)
Inductive value : Type :=
| Null
| Undefined
| Item (it : item).

(** [arr[n]] for an array [arr] and a number [n]: an element when [n] is an
    integer within range, [undefined] otherwise. *)
Definition at_index (arr : list item) (n : number) : value :=
  match n with
  | Fin x =>
      if Qeq_bool x (inject_Z (Qfloor x)) && (0 <=? Qfloor x)%Z then
        match nth_error arr (Z.to_nat (Qfloor x)) with
        | Some it => Item it
        | None => Undefined
        end
      else Undefined
  | _ => Undefined
  end.

(** What the weight property of an option holds in the presentation layer:
    the literal [1], the result of a [parseInt] (an integer or NaN), the
    text of an input field, or nothing. *)
Inductive jsval : Type :=
| JUndefined
| JString (s : string)
| JInteger (z : Z)
| JNaN.

(** An element of the [options] array of the enclosing scope. *)
Record opt : Type := mkOpt { opt_name : string; opt_weight : jsval }.

(** A child of the [#simulation-result] element: the heading written through
    [innerHTML], or one paragraph per tallied name.  A paragraph keeps the
    numbers its text is formatted from. *)
Inductive node : Type :=
| H3 (text : string)
| P (line_name : string) (count percentage weightPercentage : number).

Record world : Type := mkWorld {
  options : list opt;               (* [let options] of the enclosing scope *)
  items : option (list item);       (* the array bound to [items]; [None] when absent *)
  rng : nat -> Q;                   (* the value of the n-th [Math.random()] *)
  random_calls : nat;               (* calls of [Math.random()] so far *)
  sampler_calls : nat;              (* calls of [weightedRandom] so far *)
  alerts : list string;             (* messages shown by [alert] so far *)
  simulationResultDiv : list node;  (* children of [#simulation-result] *)
  spinButton_disabled : bool;       (* [spinButton.disabled] *)
  resultText : string               (* [resultText.textContent] *)
}.

Definition set_items (v : option (list item)) (w : world) : world :=
  mkWorld (options w) v (rng w) (random_calls w) (sampler_calls w)
          (alerts w) (simulationResultDiv w)
          (spinButton_disabled w) (resultText w).

Definition set_random_calls (n : nat) (w : world) : world :=
  mkWorld (options w) (items w) (rng w) n (sampler_calls w)
          (alerts w) (simulationResultDiv w)
          (spinButton_disabled w) (resultText w).

Definition set_sampler_calls (n : nat) (w : world) : world :=
  mkWorld (options w) (items w) (rng w) (random_calls w) n
          (alerts w) (simulationResultDiv w)
          (spinButton_disabled w) (resultText w).

Definition set_alerts (l : list string) (w : world) : world :=
  mkWorld (options w) (items w) (rng w) (random_calls w) (sampler_calls w)
          l (simulationResultDiv w)
          (spinButton_disabled w) (resultText w).

Definition set_simulationResultDiv (l : list node) (w : world) : world :=
  mkWorld (options w) (items w) (rng w) (random_calls w) (sampler_calls w)
          (alerts w) l
          (spinButton_disabled w) (resultText w).

Definition set_spinButton_disabled (b : bool) (w : world) : world :=
  mkWorld (options w) (items w) (rng w) (random_calls w) (sampler_calls w)
          (alerts w) (simulationResultDiv w)
          b (resultText w).

Definition set_resultText (s : string) (w : world) : world :=
  mkWorld (options w) (items w) (rng w) (random_calls w) (sampler_calls w)
          (alerts w) (simulationResultDiv w)
          (spinButton_disabled w) s.

(** ** Computations: a state monad over the world, with exceptions *)

Inductive completion (A : Type) : Type :=
| Normal (a : A)
| Throw (error : string).
Arguments Normal {A} a.
Arguments Throw {A} error.

Definition M (A : Type) : Type := world -> completion A * world.

Definition ret {A} (a : A) : M A := fun w => (Normal a, w).

Definition bind {A B} (m : M A) (k : A -> M B) : M B :=
  fun w =>
    match m w with
    | (Normal a, w') => k a w'
    | (Throw e, w') => (Throw e, w')
    end.

Notation "x <- m ;; k" := (bind m (fun x => k))
  (at level 61, m at next level, right associativity).
Notation "m ;;; k" := (bind m (fun _ => k))
  (at level 61, right associativity).

Definition throw {A} (e : string) : M A := fun w => (Throw e, w).
Definition read {A} (f : world -> A) : M A := fun w => (Normal (f w), w).
Definition modify (f : world -> world) : M unit := fun w => (Normal tt, f w).

(** [Math.random()] *)
Definition Math_random : M number :=
  fun w => (Normal (Fin (rng w (random_calls w))),
            set_random_calls (S (random_calls w)) w).

(** [alert(message)] *)
Definition alert (message : string) : M unit :=
  modify (fun w => set_alerts (alerts w ++ [message]) w).

(** ** Logic layer: [weightedRandom] (main.js, lines 8-31) *)

(** [items.reduce((sum, item) => sum + item.weight, 0)] *)
Definition totalWeight (arr : list item) : number :=
  fold_left (fun sum it => add sum (weight it)) arr (Fin 0).

(** The [for (const item of items)] loop of lines 22-27, started with the
    running value [random]: the item at which it returns, or [None] when
    the loop runs to its end. *)
Fixpoint weightedLoop (random : number) (rest : list item) : option item :=
  match rest with
  | [] => None
  | it :: rest' =>
      let random' := sub random (weight it) in
      if ltb random' (Fin 0) then Some it else weightedLoop random' rest'
  end.

Definition weightedRandom : M value :=
  modify (fun w => set_sampler_calls (S (sampler_calls w)) w) ;;;
  arg <- read items ;;
  match arg with
  | None => ret Null
  | Some arr =>
      if (List.length arr =? 0)%nat then ret Null
      else
        let total := totalWeight arr in
        if leb total (Fin 0) then
          u <- Math_random ;;
          let randomIndex := Math_floor (mul u (num_of_nat (List.length arr))) in
          ret (at_index arr randomIndex)
        else
          u <- Math_random ;;
          let random := mul u total in
          match weightedLoop random arr with
          | Some it => ret (Item it)
          | None => ret (at_index arr (sub (num_of_nat (List.length arr)) (Fin 1)))
          end
  end.

(** ** Presentation layer: collecting the options (lines 181-184, 241-244) *)

Open Scope string_scope.

(** ToString of what a weight property can hold.  An integer below 10^21 in
    magnitude prints as its decimal digits; a larger one prints in
    exponent notation, digits up to the last non-zero one. *)
Definition digits_of_Z (z : Z) : string :=
  NilZero.string_of_uint (N.to_uint (Z.to_N (Z.abs z))).

Fixpoint strip_zeros_rev (rev_digits : list ascii) : list ascii :=
  match rev_digits with
  | "0"%char :: rest => strip_zeros_rev rest
  | other => other
  end.

Definition strip_trailing_zeros (s : string) : string :=
  string_of_list_ascii (rev (strip_zeros_rev (rev (list_ascii_of_string s)))).

Definition exponent_notation (digits : string) : string :=
  match digits with
  | EmptyString => EmptyString
  | String d rest =>
      let fraction := strip_trailing_zeros rest in
      String d (match fraction with
                | EmptyString => EmptyString
                | _ => "." ++ fraction
                end)
      ++ "e+" ++ NilZero.string_of_uint (Nat.to_uint (String.length rest))
  end.

Definition ToString (v : jsval) : string :=
  match v with
  | JUndefined => "undefined"
  | JString s => s
  | JNaN => "NaN"
  | JInteger z =>
      (if (z <? 0)%Z then "-" else "") ++
      (if (Z.abs z <? 10 ^ 21)%Z then digits_of_Z z
       else exponent_notation (digits_of_Z z))
  end.

(** White space and line terminators skipped by [parseInt], as far as they
    are single bytes (TAB, LF, VT, FF, CR, SP). *)
Definition is_white_space (c : ascii) : bool :=
  let n := nat_of_ascii c in
  ((9 <=? n) && (n <=? 13) || (n =? 32))%nat.

Fixpoint skip_white_space (s : string) : string :=
  match s with
  | String c rest => if is_white_space c then skip_white_space rest else s
  | EmptyString => EmptyString
  end.

Definition digit_value (c : ascii) : option Z :=
  let n := nat_of_ascii c in
  if ((48 <=? n) && (n <=? 57))%nat then Some (Z.of_nat (n - 48)) else None.

(** The value of the longest prefix of decimal digits, [acc] being the value
    of the digits read so far. *)
Fixpoint read_digits (acc : Z) (s : string) : Z :=
  match s with
  | String c rest =>
      match digit_value c with
      | Some d => read_digits (10 * acc + d) rest
      | None => acc
      end
  | EmptyString => acc
  end.

(** [parseInt(v, 10)]: NaN when no digit follows the optional sign. *)
Definition parseInt (v : jsval) : number :=
  let s := skip_white_space (ToString v) in
  let '(sign, body) :=
    match s with
    | String c rest =>
        if Ascii.eqb c "-" then ((-1)%Z, rest)
        else if Ascii.eqb c "+" then (1%Z, rest)
        else (1%Z, s)
    | EmptyString => (1%Z, s)
    end in
  match body with
  | String c rest =>
      match digit_value c with
      | Some d => num_of_Z (sign * read_digits d rest)
      | None => NaN
      end
  | EmptyString => NaN
  end.

(** [options.map((opt) => ({name: opt.name,
                            weight: parseInt(opt.weight, 10) || 1}))] *)
Definition collectItems (os : list opt) : list item :=
  map (fun o => mkItem (opt_name o) (or_else (parseInt (opt_weight o)) (Fin 1)))
      os.

(** ** A plain object used as a dictionary (the [results] of line 251) *)

(** The own properties, in the order of their creation. *)
Definition object : Type := list (string * number).

Fixpoint get_own (o : object) (key : string) : option number :=
  match o with
  | [] => None
  | (k, v) :: rest => if String.eqb k key then Some v else get_own rest key
  end.

Fixpoint put_own (o : object) (key : string) (v : number) : object :=
  match o with
  | [] => [(key, v)]
  | (k, old) :: rest =>
      if String.eqb k key then (k, v) :: rest
      else (k, old) :: put_own rest key v
  end.

(** [o[key] = v] for a number [v].  The key ["__proto__"] is the accessor
    inherited from [Object.prototype]: its setter ignores a value that is
    neither an object nor [null], so no own property is created. *)
Definition obj_set (o : object) (key : string) (v : number) : object :=
  if String.eqb key "__proto__" then o else put_own o key v.

(** ToNumber of [o[key]]: the own property when there is one; otherwise the
    read yields [undefined], or a function or object inherited from
    [Object.prototype], all of which convert to NaN. *)
Definition obj_get_number (o : object) (key : string) : number :=
  match get_own o key with
  | Some v => v
  | None => NaN
  end.

(** [o[key]++] *)
Definition obj_increment (o : object) (key : string) : object :=
  obj_set o key (add (obj_get_number o key) (Fin 1)).

(** A key that is an array index: the canonical decimal form of an integer
    between 0 and 2^32 - 2. *)
Fixpoint all_digits (s : string) : bool :=
  match s with
  | EmptyString => true
  | String c rest =>
      match digit_value c with Some _ => all_digits rest | None => false end
  end.

Definition array_index (key : string) : option Z :=
  match key with
  | EmptyString => None
  | String c rest =>
      if all_digits key
         && (negb (Ascii.eqb c "0") || String.eqb rest "")
      then
        let n := read_digits 0 key in
        if (n <=? 4294967294)%Z then Some n else None
      else None
  end.

Fixpoint insert_by_index (e : Z * (string * number))
         (sorted : list (Z * (string * number))) : list (Z * (string * number)) :=
  match sorted with
  | [] => [e]
  | e' :: rest =>
      if (fst e <=? fst e')%Z then e :: sorted
      else e' :: insert_by_index e rest
  end.

Definition index_entries (o : object) : list (Z * (string * number)) :=
  fold_right
    (fun kv acc =>
       match array_index (fst kv) with
       | Some n => insert_by_index (n, kv) acc
       | None => acc
       end) [] o.

Definition named_entries (o : object) : object :=
  filter (fun kv => match array_index (fst kv) with
                    | Some _ => false
                    | None => true
                    end) o.

(** The properties in the order [for (const name in o)] visits them: array
    indices in ascending order, then the other keys in creation order. *)
Definition enumerate (o : object) : object :=
  (map snd (index_entries o) ++ named_entries o)%list.

(** ** Presentation layer: [runSimulation] (lines 239-281) *)

Definition TRIAL_COUNT : nat := 1000.

(** Lines 251-254: [results = {}], then [results[item.name] = 0] for each
    item, in order. *)
Definition initResults (arr : list item) : object :=
  fold_left (fun results it => obj_set results (name it) (Fin 0)) arr [].

(** Lines 256-261: [n] iterations of the trial loop. *)
Fixpoint trialLoop (n : nat) (results : object) : M object :=
  match n with
  | O => ret results
  | S n' =>
      winner <- weightedRandom ;;
      trialLoop n'
        (match winner with
         | Item it => obj_increment results (name it)
         | Null | Undefined => results
         end)
  end.

(** Lines 251-261 together: the tally of [n] trials over the array bound to
    [items]. *)
Definition runTrials (arr : list item) (n : nat) : M object :=
  trialLoop n (initResults arr).

(** [items.find((it) => it.name === name)] *)
Definition find_by_name (arr : list item) (nm : string) : option item :=
  find (fun it => String.eqb (name it) nm) arr.

(** Lines 270-273; reading [item.weight] throws when [find] found nothing. *)
Definition weightPercentageOf (arr : list item) (total : number)
           (nm : string) : M number :=
  if gtb total (Fin 0) then
    match find_by_name arr nm with
    | Some it => ret (mul (div (weight it) total) (Fin 100))
    | None => throw "TypeError"
    end
  else ret (div (Fin 100) (num_of_nat (List.length arr))).

(** Lines 266-280: one paragraph per enumerated property of [results]. *)
Fixpoint displayLoop (entries : object) (arr : list item) (total : number)
  : M unit :=
  match entries with
  | [] => ret tt
  | (nm, count) :: rest =>
      let percentage := mul (div count (num_of_nat TRIAL_COUNT)) (Fin 100) in
      weightPercentage <- weightPercentageOf arr total nm ;;
      modify (fun w => set_simulationResultDiv
                         (simulationResultDiv w
                            ++ [P nm count percentage weightPercentage])%list w) ;;;
      displayLoop rest arr total
  end.

Definition too_few_options : string := "選択肢を2つ以上入力してください。".

Definition runSimulation : M unit :=
  os <- read options ;;
  let arr := collectItems os in
  modify (set_items (Some arr)) ;;;
  if (List.length arr <? 2)%nat then alert too_few_options
  else
    results <- runTrials arr TRIAL_COUNT ;;
    modify (set_simulationResultDiv [H3 "1000回試行結果:"]) ;;;
    let total := totalWeight arr in
    displayLoop (enumerate results) arr total.

(** ** Presentation layer: [spin], lines 180-197

    The part that picks the winner: the result is the winner the rest of
    the function goes on with, [None] when it has returned.  What follows
    in the source turns the canvas towards the winner's sector and is not
    modelled. *)
Definition spin : M (option item) :=
  os <- read options ;;
  let arr := collectItems os in
  modify (set_items (Some arr)) ;;;
  if (List.length arr <? 2)%nat then alert too_few_options ;;; ret None
  else
    modify (set_spinButton_disabled true) ;;;
    modify (set_resultText "...") ;;;
    winner <- weightedRandom ;;
    match winner with
    | Item it => ret (Some it)
    | Null | Undefined =>
        modify (set_spinButton_disabled false) ;;; ret None
    end.

(** ** Vocabulary of the statements *)

(** The value the next call of [Math.random()] returns. *)
Definition draw (w : world) : Q := rng w (random_calls w).

(** Every value [Math.random()] can return lies in [0, 1). *)
Definition uniform_source (w : world) : Prop :=
  forall n, 0 <= rng w n < 1.

(** The position of the iteration at which the loop of [weightedLoop]
    returns. *)
Fixpoint crossingIndex (random : number) (rest : list item) : option nat :=
  match rest with
  | [] => None
  | it :: rest' =>
      let random' := sub random (weight it) in
      if ltb random' (Fin 0) then Some O
      else option_map S (crossingIndex random' rest')
  end.







(** The first item of [arr] named [nm], with what precedes it. *)
Definition first_named (arr : list item) (nm : string) (it : item) : Prop :=
  exists pre post,
    arr = (pre ++ it :: post)%list /\ name it = nm /\
    Forall (fun x => name x <> nm) pre.

(** The counts of a tally are the numbers of [counts], in order. *)
Definition counts_of (results : object) (counts : list nat) : Prop :=
  map snd results = map num_of_nat counts.


Definition initial_world (os : list opt) (source : nat -> Q) : world :=
  mkWorld os None source 0 0 [] [] false "".

(** ** Inputs used in the examples below *)


Definition half : nat -> Q := fun _ => 1 # 2.
Definition zero_source : nat -> Q := fun _ => 0.

(** A world whose [items] array is [arr] and whose draws are all [1/2]. *)
Definition sampling_world (arr : list item) : world :=
  set_items (Some arr) (initial_world [] half).

Definition default_options : list opt :=
  [mkOpt "選択肢 1" (JInteger 1); mkOpt "選択肢 2" (JInteger 1)].

(** An option whose name is the key of the prototype accessor. *)
Definition proto_options : list opt :=
  [mkOpt "__proto__" (JInteger 1); mkOpt "B" (JInteger 1)].

(** Two options of one name, total weight 4. *)
Definition duplicate_options : list opt :=
  [mkOpt "A" (JInteger 1); mkOpt "A" (JInteger 3)].

(** Two options of one name, total weight -4. *)
Definition negative_duplicate_options : list opt :=
  [mkOpt "A" (JInteger (-1)); mkOpt "A" (JInteger (-3))].


From Stdlib Require Import Permutation.

(** ** Presentation layer: the options array and its handlers
    (lines 45, 84-124, 287-304, 311-318)

    [renderOptions] and [drawRoulette] rebuild the option rows and the
    canvas.  Their bodies are not modelled: the functions below take them
    as parameters, computations that may complete or throw and that leave
    the world as it is. *)

Definition set_options (os : list opt) (w : world) : world :=
  mkWorld os (items w) (rng w) (random_calls w) (sampler_calls w)
          (alerts w) (simulationResultDiv w)
          (spinButton_disabled w) (resultText w).

Definition MAX_OPTIONS : nat := 10.

Definition decimal_of_nat (n : nat) : string :=
  NilZero.string_of_uint (Nat.to_uint n).

(** The integer a finite number is rounded to, towards zero. *)
Definition truncate (q : Q) : Z :=
  if Qle_bool 0 q then Qfloor q else Qceiling q.

(** The position an array is read at by [arr[n]]: none unless [n] is a
    non-negative integer. *)
Definition index_position (n : number) : option nat :=
  match n with
  | Fin x =>
      if Qeq_bool x (inject_Z (Qfloor x)) && (0 <=? Qfloor x)%Z
      then Some (Z.to_nat (Qfloor x))
      else None
  | _ => None
  end.

(** The position at which [arr.splice(start, ...)] starts, for an array of
    length [len]: NaN counts as 0, a negative start counts from the end,
    and the result is clamped to [0, len]. *)
Definition splice_start (len : nat) (start : number) : nat :=
  match start with
  | NaN | NegInf => 0%nat
  | PosInf => len
  | Fin q =>
      let z := truncate q in
      if (z <? 0)%Z then Z.to_nat (Z.max (Z.of_nat len + z) 0)
      else Z.to_nat (Z.min z (Z.of_nat len))
  end.

(** The array after [arr.splice(start, 1)]. *)
Definition splice_one {A : Type} (arr : list A) (start : number) : list A :=
  let s := splice_start (List.length arr) start in
  (firstn s arr ++ skipn (s + 1) arr)%list.

Fixpoint replace_at {A : Type} (k : nat) (x : A) (l : list A) : list A :=
  match l, k with
  | [], _ => []
  | _ :: rest, O => x :: rest
  | y :: rest, S k' => y :: replace_at k' x rest
  end.

(** The two assignments [option[key] = value] the change handler asks for:
    a text for the key [name], anything for the key [weight]. *)
Inductive update : Type :=
| SetName (s : string)
| SetWeight (v : jsval).

Definition apply_update (u : update) (o : opt) : opt :=
  match u with
  | SetName s => mkOpt s (opt_weight o)
  | SetWeight v => mkOpt (opt_name o) v
  end.

(** The number [parseInt] returned, as a weight property holds it. *)
Definition to_stored (n : number) : jsval :=
  match n with
  | Fin q => JInteger (Qfloor q)
  | _ => JNaN
  end.

(** What the handlers read of [e.target]. *)
Record target : Type := mkTarget {
  target_is_input : bool;        (* [matches("input")] *)
  target_is_remove : bool;       (* [matches(".remove-option")] *)
  target_type : string;          (* [type] *)
  target_data_index : jsval;     (* [dataset.index] *)
  target_value : string          (* [value] *)
}.

Inductive event : Type :=
| AddClick                        (* click on [#add-option] *)
| OptionsChange (e : target)      (* change inside [#options-list] *)
| OptionsClick (e : target).      (* click inside [#options-list] *)

Definition option_limit_reached : string :=
  "選択肢は" ++ decimal_of_nat MAX_OPTIONS ++ "個までです。".

Definition option_minimum_reached : string := "選択肢は2個未満にはできません。".

Section OptionsArray.

Variables renderOptions drawRoulette : M unit.

(** Lines 84-96. *)
Definition addOption : M unit :=
  os <- read options ;;
  if (MAX_OPTIONS <=? List.length os)%nat then alert option_limit_reached
  else
    let newOption :=
      mkOpt ("選択肢 " ++ decimal_of_nat (List.length os + 1)) (JInteger 1) in
    modify (set_options (os ++ [newOption])%list) ;;;
    renderOptions ;;;
    drawRoulette.

(** Lines 102-110. *)
Definition removeOption (index : number) : M unit :=
  os <- read options ;;
  if (List.length os <=? 2)%nat then alert option_minimum_reached
  else
    modify (set_options (splice_one os index)) ;;;
    renderOptions ;;;
    drawRoulette.

(** Lines 118-124: [options[index]] is read at the position [index]
    denotes, and [option[key] = value] is one of the two updates. *)
Definition updateOption (index : number) (u : update) : M unit :=
  os <- read options ;;
  match index_position index with
  | Some k =>
      match nth_error os k with
      | Some o =>
          modify (set_options (replace_at k (apply_update u o) os)) ;;;
          drawRoulette
      | None => ret tt
      end
  | None => ret tt
  end.

(** Lines 287-297. *)
Definition onOptionsChange (e : target) : M unit :=
  if target_is_input e then
    let index := parseInt (target_data_index e) in
    let u :=
      if String.eqb (target_type e) "text" then SetName (target_value e)
      else if String.eqb (target_type e) "number"
           then SetWeight (to_stored (parseInt (JString (target_value e))))
           else SetWeight (JString (target_value e)) in
    updateOption index u
  else ret tt.

(** Lines 299-304. *)
Definition onOptionsClick (e : target) : M unit :=
  if target_is_remove e then removeOption (parseInt (target_data_index e))
  else ret tt.

(** Lines 311-318. *)
Definition initialize : M unit :=
  modify (set_options
            [mkOpt "選択肢 1" (JInteger 1); mkOpt "選択肢 2" (JInteger 1)]) ;;;
  renderOptions ;;;
  drawRoulette.

(** Lines 285-304: the listener of each event. *)
Definition dispatch (ev : event) : M unit :=
  match ev with
  | AddClick => addOption
  | OptionsChange e => onOptionsChange e
  | OptionsClick e => onOptionsClick e
  end.

(** The world after the listeners of [evs] have run in turn; a listener
    that throws does not stop the next one. *)
Definition after_events (evs : list event) (w : world) : world :=
  fold_left (fun w' ev => snd (dispatch ev w')) evs w.

End OptionsArray.

(** ** Presentation layer: where [spin] stops the wheel (lines 199-216) *)

(** [Math.PI] and the literal [0.05], as the rationals those doubles are. *)
Definition PI_double : Q := 884279719003555 # 281474976710656.
Definition margin : Q := 3602879701896397 # 72057594037927936.
Definition Math_PI : number := Fin PI_double.
Definition literal_0_05 : number := Fin margin.

(** Lines 203-213: the loop over the items, from the running [startAngle];
    0 when no item bears the name. *)
Fixpoint targetAngleLoop (startAngle : number) (rest : list item)
         (winnerName : string) (total : number) : M number :=
  match rest with
  | [] => ret (Fin 0)
  | it :: rest' =>
      let angle := mul (mul (div (weight it) total) (Fin 2)) Math_PI in
      if String.eqb (name it) winnerName then
        let padding := mul angle literal_0_05 in
        u <- Math_random ;;
        let randomOffset :=
          add (mul u (sub angle (mul padding (Fin 2)))) padding in
        ret (add startAngle randomOffset)
      else targetAngleLoop (add startAngle angle) rest' winnerName total
  end.

(** Lines 199-213: [targetAngleRad]. *)
Definition targetAngleRad (arr : list item) (winner : item) : M number :=
  targetAngleLoop (div (neg Math_PI) (Fin 2)) arr (name winner)
                  (totalWeight arr).

(** Lines 215-216: [totalRotationDeg]. *)
Definition totalRotationDeg (arr : list item) (winner : item) : M number :=
  target <- targetAngleRad arr winner ;;
  let targetRotationDeg :=
    sub (Fin 270) (div (mul target (Fin 180)) Math_PI) in
  ret (add (Fin 1800) targetRotationDeg).


(** [a % b]: the remainder has the sign of [a]; NaN when [a] is not finite
    or [b] is zero or NaN. *)
Definition remainder (a b : number) : number :=
  match a, b with
  | Fin x, Fin y =>
      if Qeq_bool y 0 then NaN
      else Fin (x - inject_Z (truncate (x / y)) * y)
  | Fin x, (PosInf | NegInf) => Fin x
  | _, _ => NaN
  end.

(** Lines 226-233: what the function handed to [setTimeout] does when the
    5 seconds are over; the result is the angle of the [rotate(...)]
    written into the transform of the canvas. *)
Definition spinFinished (winner : item) (totalRotationDeg : number)
  : M number :=
  modify (set_resultText ("結果: " ++ name winner)) ;;;
  modify (set_spinButton_disabled false) ;;;
  let finalAngleDeg := remainder totalRotationDeg (Fin 360) in
  ret finalAngleDeg.

(** ** More vocabulary *)


(** The paragraph [runSimulation] appends for an entry of the tally whose
    name some item bears (the theoretical share is left as NaN when none
    does and the total is positive: the source throws there). *)
Definition expected_line (arr : list item) (total : number)
           (entry : string * number) : node :=
  let '(nm, count) := entry in
  P nm count
    (mul (div count (num_of_nat TRIAL_COUNT)) (Fin 100))
    (if gtb total (Fin 0) then
       match find_by_name arr nm with
       | Some it => mul (div (weight it) total) (Fin 100)
       | None => NaN
       end
     else div (Fin 100) (num_of_nat (List.length arr))).

(** A computation that leaves the world as it is, whether it completes or
    throws. *)
Definition leaves_world (m : M unit) : Prop := forall w, snd (m w) = w.

(** The number of options the page keeps between. *)
Definition option_count_ok (w : world) : Prop :=
  (2 <= List.length (options w) <= MAX_OPTIONS)%nat.

(** ** Numbers *)




Lemma add_NaN_r (a : number) : add a NaN = NaN.
Proof. destruct a; reflexivity. Qed.

Lemma add_num_of_nat_1 (c : nat) : add (num_of_nat c) (Fin 1) = num_of_nat (S c).
Proof.
  unfold num_of_nat, add, inject_Z, Qplus. simpl Qnum. simpl Qden.
  f_equal. f_equal. lia.
Qed.

Lemma Normal_inj {A : Type} (a b : A) : Normal a = Normal b -> a = b.
Proof. intros [=]. assumption. Qed.

(** ** Reading an array *)

Lemma at_index_In (arr : list item) (n : number) (it : item) :
  at_index arr n = Item it -> In it arr.
Proof.
  destruct n as [x | | |]; simpl; try discriminate.
  destruct (Qeq_bool x (inject_Z (Qfloor x)) && (0 <=? Qfloor x)%Z);
    try discriminate.
  destruct (nth_error arr (Z.to_nat (Qfloor x))) eqn:E; try discriminate.
  intros [= <-]. eapply nth_error_In; eauto.
Qed.

Lemma at_index_not_Null (arr : list item) (n : number) : at_index arr n <> Null.
Proof.
  destruct n as [x | | |]; simpl; try discriminate.
  destruct (Qeq_bool x (inject_Z (Qfloor x)) && (0 <=? Qfloor x)%Z);
    try discriminate.
  destruct (nth_error arr (Z.to_nat (Qfloor x))); discriminate.
Qed.

Lemma at_index_nat (arr : list item) (k : nat) :
  at_index arr (num_of_nat k) =
  match nth_error arr k with Some it => Item it | None => Undefined end.
Proof.
  unfold at_index, num_of_nat. rewrite Qfloor_Z.
  assert (Qeq_bool (inject_Z (Z.of_nat k)) (inject_Z (Z.of_nat k)) = true) as ->
      by (apply Qeq_bool_iff; reflexivity).
  assert ((0 <=? Z.of_nat k)%Z = true) as -> by (apply Z.leb_le; lia).
  simpl. rewrite Nat2Z.id. reflexivity.
Qed.

Lemma at_index_Z (arr : list item) (z : Z) :
  (0 <= z)%Z ->
  at_index arr (Fin (inject_Z z)) =
  match nth_error arr (Z.to_nat z) with Some it => Item it | None => Undefined end.
Proof.
  intros Hz. rewrite <- (Z2Nat.id z) at 1 by assumption.
  apply (at_index_nat arr (Z.to_nat z)).
Qed.

Lemma at_index_last (arr : list item) :
  arr <> [] ->
  exists lst,
    nth_error arr (List.length arr - 1) = Some lst /\
    at_index arr (sub (num_of_nat (List.length arr)) (Fin 1)) = Item lst.
Proof.
  intros Hne.
  assert (0 < List.length arr)%nat as Hlen
      by (destruct arr; [congruence | simpl; lia]).
  destruct (nth_error arr (List.length arr - 1)) as [lst |] eqn:E.
  - exists lst. split; [reflexivity |].
    assert (sub (num_of_nat (List.length arr)) (Fin 1)
            = Fin (inject_Z (Z.of_nat (List.length arr) - 1))) as ->.
    { unfold sub, num_of_nat, neg, add, inject_Z, Qplus, Qopp.
      simpl Qnum. simpl Qden. f_equal. f_equal. lia. }
    rewrite at_index_Z by lia.
    replace (Z.to_nat (Z.of_nat (List.length arr) - 1))
      with (List.length arr - 1)%nat by lia.
    rewrite E. reflexivity.
  - apply nth_error_None in E. lia.
Qed.

(** ** The sampler, branch by branch *)

Lemma weightedRandom_absent (w : world) :
  items w = None ->
  weightedRandom w = (Normal Null, set_sampler_calls (S (sampler_calls w)) w).
Proof.
  intros H. unfold weightedRandom, bind, modify, read, ret. simpl.
  rewrite H. reflexivity.
Qed.

Lemma weightedRandom_empty (w : world) :
  items w = Some [] ->
  weightedRandom w = (Normal Null, set_sampler_calls (S (sampler_calls w)) w).
Proof.
  intros H. unfold weightedRandom, bind, modify, read, ret. simpl.
  rewrite H. reflexivity.
Qed.

Lemma weightedRandom_nonempty (w : world) (arr : list item) :
  items w = Some arr -> arr <> [] ->
  weightedRandom w =
  (Normal
     (if leb (totalWeight arr) (Fin 0) then
        at_index arr
          (Math_floor (mul (Fin (draw w)) (num_of_nat (List.length arr))))
      else
        match weightedLoop (mul (Fin (draw w)) (totalWeight arr)) arr with
        | Some it => Item it
        | None => at_index arr (sub (num_of_nat (List.length arr)) (Fin 1))
        end),
   set_random_calls (S (random_calls w))
     (set_sampler_calls (S (sampler_calls w)) w)).
Proof.
  intros H Hne. unfold weightedRandom, bind, modify, read, ret, Math_random, draw.
  simpl. rewrite H. destruct arr as [| it rest]; [congruence |].
  change (List.length (it :: rest) =? 0)%nat with false. cbv iota.
  destruct (leb (totalWeight (it :: rest)) (Fin 0)); [reflexivity |].
  simpl random_calls. simpl rng.
  destruct (weightedLoop _ (it :: rest)); reflexivity.
Qed.

Lemma weightedLoop_In (arr : list item) (random : number) (it : item) :
  weightedLoop random arr = Some it -> In it arr.
Proof.
  revert random. induction arr as [| x rest IH]; intros random; simpl.
  - discriminate.
  - destruct (ltb (sub random (weight x)) (Fin 0)).
    + intros [= <-]. now left.
    + intros H. right. eapply IH; eauto.
Qed.

Lemma weightedLoop_crossing (arr : list item) (random : number) :
  weightedLoop random arr =
  match crossingIndex random arr with
  | Some i => nth_error arr i
  | None => None
  end.
Proof.
  revert random. induction arr as [| x rest IH]; intros random; simpl.
  - reflexivity.
  - destruct (ltb (sub random (weight x)) (Fin 0)); [reflexivity |].
    rewrite IH. destruct (crossingIndex _ rest); reflexivity.
Qed.

Lemma weightedLoop_NaN (arr : list item) : weightedLoop NaN arr = None.
Proof.
  induction arr as [| x rest IH]; simpl; [reflexivity | exact IH].
Qed.

(** Whatever the draw, the sampler completes normally, and what it returns
    is [null], [undefined] or an element of the array. *)
Lemma weightedRandom_completes (w : world) :
  exists v, fst (weightedRandom w) = Normal v /\
            forall it, v = Item it ->
                       exists arr, items w = Some arr /\ In it arr.
Proof.
  destruct (items w) as [arr |] eqn:E.
  - destruct arr as [| x rest].
    + rewrite weightedRandom_empty by assumption. exists Null.
      split; [reflexivity | discriminate].
    + rewrite (weightedRandom_nonempty w (x :: rest)) by congruence.
      eexists. split; [reflexivity |]. intros it Hit.
      exists (x :: rest). split; [reflexivity |].
      destruct (leb (totalWeight (x :: rest)) (Fin 0)).
      * eapply at_index_In; eauto.
      * destruct (weightedLoop _ (x :: rest)) as [it' |] eqn:EL.
        -- injection Hit as <-. eapply weightedLoop_In; eauto.
        -- eapply at_index_In; eauto.
  - rewrite weightedRandom_absent by assumption. exists Null.
    split; [reflexivity | discriminate].
Qed.

(** The sampler writes nothing but its two counters. *)
Lemma weightedRandom_world (w : world) :
  exists k, (k <= 1)%nat /\
    snd (weightedRandom w) =
    set_random_calls (random_calls w + k)
      (set_sampler_calls (S (sampler_calls w)) w).
Proof.
  destruct (items w) as [arr |] eqn:E.
  - destruct arr as [| x rest].
    + exists 0%nat. rewrite weightedRandom_empty by assumption.
      split; [lia |]. simpl. unfold set_random_calls. simpl.
      rewrite Nat.add_0_r. reflexivity.
    + exists 1%nat. rewrite (weightedRandom_nonempty w (x :: rest)) by congruence.
      split; [lia |]. simpl. rewrite Nat.add_1_r. reflexivity.
  - exists 0%nat. rewrite weightedRandom_absent by assumption.
    split; [lia |]. simpl. unfold set_random_calls. simpl.
    rewrite Nat.add_0_r. reflexivity.
Qed.

(** ** The total weight *)

Lemma fold_add_NaN (arr : list item) :
  fold_left (fun sum it => add sum (weight it)) arr NaN = NaN.
Proof.
  induction arr as [| x rest IH]; simpl; [reflexivity | exact IH].
Qed.

Lemma totalWeight_NaN (arr : list item) :
  Exists (fun it => weight it = NaN) arr -> totalWeight arr = NaN.
Proof.
  unfold totalWeight. generalize (Fin 0) as acc.
  induction arr as [| x rest IH]; intros acc H; inversion H; subst; simpl.
  - match goal with E : weight x = NaN |- _ => rewrite E end.
    rewrite add_NaN_r. apply fold_add_NaN.
  - apply IH. assumption.
Qed.



(** ** The uniform index of the degenerate branch *)

Lemma inject_nat_pos (n : nat) : (0 < n)%nat -> 0 < inject_Z (Z.of_nat n).
Proof.
  intros H. change 0 with (inject_Z 0). rewrite <- Zlt_Qlt. lia.
Qed.


Lemma uniform_index_in_range (u : Q) (n : nat) :
  0 <= u < 1 -> (0 < n)%nat ->
  (0 <= Qfloor (u * inject_Z (Z.of_nat n)) < Z.of_nat n)%Z.
Proof.
  intros [Hlo Hhi] Hn. pose proof (inject_nat_pos n Hn) as HN.
  set (N := inject_Z (Z.of_nat n)) in *.
  assert (0 <= u * N) as H0 by (apply Qmult_le_0_compat; lra).
  assert (u * N < N) as H1.
  { setoid_replace N with (1 * N) at 2 by ring.
    apply Qmult_lt_compat_r; assumption. }
  split.
  - pose proof (Qfloor_resp_le _ _ H0) as H. change 0 with (inject_Z 0) in H.
    rewrite Qfloor_Z in H. exact H.
  - rewrite Zlt_Qlt. eapply Qle_lt_trans; [apply Qfloor_le | exact H1].
Qed.


Lemma randomIndex_value (u : Q) (n : nat) :
  Math_floor (mul (Fin u) (num_of_nat n))
  = Fin (inject_Z (Qfloor (u * inject_Z (Z.of_nat n)))).
Proof. reflexivity. Qed.

(** ** What the sampler returns *)

(** C4. The sampler returns [null] exactly when its array is absent or
    empty, whatever the random source holds, and it always completes
    normally: no call throws. *)
Theorem weightedRandom_null_iff_no_items (w : world) :
  (exists v, fst (weightedRandom w) = Normal v) /\
  (fst (weightedRandom w) = Normal Null
   <-> items w = None \/ items w = Some []).
Proof.
  split.
  - destruct (weightedRandom_completes w) as [v [Hv _]]. eauto.
  - destruct (items w) as [arr |] eqn:E.
    + destruct arr as [| x rest].
      * rewrite weightedRandom_empty by assumption. simpl. tauto.
      * rewrite (weightedRandom_nonempty w (x :: rest)) by congruence.
        cbn [fst]. split.
        -- intros H. exfalso.
           destruct (leb (totalWeight (x :: rest)) (Fin 0)).
           ++ apply Normal_inj in H. exact (at_index_not_Null _ _ H).
           ++ destruct (weightedLoop _ (x :: rest)); [discriminate |].
              apply Normal_inj in H. exact (at_index_not_Null _ _ H).
        -- intros [H | H]; discriminate.
    + rewrite weightedRandom_absent by assumption. simpl. tauto.
Qed.

(** On a non-empty array, a draw of [0, 1) always yields an element. *)
Lemma weightedRandom_picks (w : world) (arr : list item) :
  items w = Some arr -> arr <> [] -> 0 <= draw w < 1 ->
  exists it, fst (weightedRandom w) = Normal (Item it) /\ In it arr.
Proof.
  intros Hitems Hne Hu.
  rewrite (weightedRandom_nonempty w arr Hitems Hne). cbn [fst].
  assert (0 < List.length arr)%nat as Hlen
      by (destruct arr; [congruence | simpl; lia]).
  destruct (leb (totalWeight arr) (Fin 0)).
  - pose proof (uniform_index_in_range (draw w) _ Hu Hlen) as [Hk0 Hk1].
    rewrite randomIndex_value, at_index_Z by assumption.
    destruct (nth_error arr (Z.to_nat (Qfloor _))) as [it |] eqn:E.
    + exists it. split; [reflexivity |]. eapply nth_error_In; eauto.
    + apply nth_error_None in E. lia.
  - destruct (weightedLoop _ arr) as [it |] eqn:E.
    + exists it. split; [reflexivity |]. eapply weightedLoop_In; eauto.
    + destruct (at_index_last arr Hne) as [lst [Hnth Hlast]].
      exists lst. rewrite Hlast. split; [reflexivity |].
      eapply nth_error_In; eauto.
Qed.

(** C2. On a non-empty array, with a draw in [0, 1), the sampler returns
    one of the elements of the array; and when the weighted loop runs to
    its end without a negative running value, that element is the last
    one. *)
Theorem weightedRandom_returns_supplied_item (w : world) (arr : list item) :
  items w = Some arr -> arr <> [] -> 0 <= draw w < 1 ->
  (exists it, fst (weightedRandom w) = Normal (Item it) /\ In it arr) /\
  (leb (totalWeight arr) (Fin 0) = false ->
   weightedLoop (mul (Fin (draw w)) (totalWeight arr)) arr = None ->
   exists lst, nth_error arr (List.length arr - 1) = Some lst /\
               fst (weightedRandom w) = Normal (Item lst)).
Proof.
  intros Hitems Hne Hu. split.
  - apply weightedRandom_picks; assumption.
  - intros Hleb Hloop.
    destruct (at_index_last arr Hne) as [lst [Hnth Hlast]].
    exists lst. split; [exact Hnth |].
    rewrite (weightedRandom_nonempty w arr Hitems Hne). cbn [fst].
    rewrite Hleb, Hloop, Hlast. reflexivity.
Qed.


(** C8. When some weight is NaN, the total weight is NaN, the test
    [totalWeight <= 0] is false, the running value of the weighted loop is
    NaN and never negative, and the sampler returns the last element of
    the array, whatever the draw. *)
Theorem NaN_weight_returns_last (w : world) (arr : list item) :
  items w = Some arr ->
  Exists (fun it => weight it = NaN) arr ->
  totalWeight arr = NaN /\
  leb (totalWeight arr) (Fin 0) = false /\
  mul (Fin (draw w)) (totalWeight arr) = NaN /\
  crossingIndex NaN arr = None /\
  exists lst, nth_error arr (List.length arr - 1) = Some lst /\
              fst (weightedRandom w) = Normal (Item lst).
Proof.
  intros Hitems Hnan.
  assert (arr <> []) as Hne by (intros ->; inversion Hnan).
  pose proof (totalWeight_NaN arr Hnan) as HT.
  pose proof (weightedLoop_NaN arr) as HL.
  rewrite HT. repeat split.
  - rewrite weightedLoop_crossing in HL.
    destruct (crossingIndex NaN arr) as [i |] eqn:E; [| reflexivity].
    exfalso. clear - E. revert i E.
    induction arr as [| x rest IH]; intros i E; simpl in E; [discriminate |].
    destruct (crossingIndex NaN rest) as [i' |]; [| discriminate].
    eapply IH; reflexivity.
  - destruct (at_index_last arr Hne) as [lst [Hnth Hlast]].
    exists lst. split; [exact Hnth |].
    rewrite (weightedRandom_nonempty w arr Hitems Hne). cbn [fst].
    rewrite HT. simpl leb. cbv iota. simpl mul. rewrite HL, Hlast. reflexivity.
Qed.

(** ** The weighted loop and the prefix sums *)














(** The items [A: 3], [N: NaN]: the loop runs to its end and the last item
    is returned. *)
Lemma weightedRandom_returns_supplied_item_witness :
  (exists it,
      fst (weightedRandom
             (sampling_world [mkItem "A" (Fin 3); mkItem "N" NaN]))
      = Normal (Item it) /\
      In it [mkItem "A" (Fin 3); mkItem "N" NaN]) /\
  exists lst,
    nth_error [mkItem "A" (Fin 3); mkItem "N" NaN] 1 = Some lst /\
    fst (weightedRandom (sampling_world [mkItem "A" (Fin 3); mkItem "N" NaN]))
    = Normal (Item lst).
Proof.
  destruct (weightedRandom_returns_supplied_item
              (sampling_world [mkItem "A" (Fin 3); mkItem "N" NaN])
              [mkItem "A" (Fin 3); mkItem "N" NaN]) as [Hin Hlast].
  - reflexivity.
  - discriminate.
  - split; [discriminate | reflexivity].
  - split; [exact Hin |]. apply Hlast; reflexivity.
Defined.


(** A NaN weight between two finite ones. *)
Lemma NaN_weight_returns_last_witness :
  totalWeight [mkItem "A" (Fin 3); mkItem "N" NaN; mkItem "B" (Fin 1)] = NaN.
Proof.
  apply (NaN_weight_returns_last
           (sampling_world [mkItem "A" (Fin 3); mkItem "N" NaN; mkItem "B" (Fin 1)])).
  - reflexivity.
  - apply Exists_cons_tl. apply Exists_cons_hd. reflexivity.
Defined.

(** ** The tally object *)

Lemma get_own_Some_In (o : object) (key : string) :
  In key (map fst o) -> exists v, get_own o key = Some v.
Proof.
  induction o as [| [k v] rest IH]; simpl; [tauto |].
  intros [-> | H].
  - rewrite String.eqb_refl. eauto.
  - destruct (String.eqb k key); eauto.
Qed.

Lemma put_own_keys_In (o : object) (key : string) (v : number) :
  In key (map fst o) -> map fst (put_own o key v) = map fst o.
Proof.
  induction o as [| [k old] rest IH]; simpl; [tauto |].
  intros H. destruct (String.eqb k key) eqn:E; simpl.
  - reflexivity.
  - f_equal. apply IH. destruct H as [-> | H]; [| exact H].
    rewrite String.eqb_refl in E. discriminate.
Qed.

Lemma put_own_keys_fresh (o : object) (key : string) (v : number) :
  ~ In key (map fst o) -> map fst (put_own o key v) = (map fst o ++ [key])%list.
Proof.
  induction o as [| [k old] rest IH]; simpl; [reflexivity |].
  intros H. destruct (String.eqb k key) eqn:E; simpl.
  - apply String.eqb_eq in E. tauto.
  - f_equal. apply IH. tauto.
Qed.

Lemma put_own_keys_incl (o : object) (key k : string) (v : number) :
  In k (map fst (put_own o key v)) -> In k (map fst o) \/ k = key.
Proof.
  destruct (in_dec string_dec key (map fst o)) as [Hin | Hout].
  - rewrite put_own_keys_In by assumption. tauto.
  - rewrite put_own_keys_fresh by assumption. rewrite in_app_iff. simpl.
    intuition congruence.
Qed.

Lemma obj_set_keys_incl (o : object) (key k : string) (v : number) :
  In k (map fst (obj_set o key v)) -> In k (map fst o) \/ k = key.
Proof.
  unfold obj_set. destruct (String.eqb key "__proto__"); [tauto |].
  apply put_own_keys_incl.
Qed.

Lemma initResults_keys_incl (arr : list item) (k : string) :
  In k (map fst (initResults arr)) -> In k (map name arr).
Proof.
  unfold initResults.
  assert (forall o, In k (map fst (fold_left
                     (fun results it => obj_set results (name it) (Fin 0)) arr o))
                    -> In k (map fst o) \/ In k (map name arr)) as H.
  { induction arr as [| x rest IH]; intros o Hk; simpl in *; [tauto |].
    apply IH in Hk. destruct Hk as [Hk | Hk]; [| tauto].
    apply obj_set_keys_incl in Hk. intuition. }
  intros Hk. apply H in Hk. simpl in Hk. tauto.
Qed.

(** ** One call of the sampler, as the trial loop sees it *)

Lemma weightedRandom_run (w : world) :
  exists v k,
    (k <= 1)%nat /\
    weightedRandom w =
    (Normal v,
     set_random_calls (random_calls w + k)
       (set_sampler_calls (S (sampler_calls w)) w)) /\
    (forall it, v = Item it -> exists arr, items w = Some arr /\ In it arr).
Proof.
  destruct (weightedRandom_completes w) as [v [Hv Hin]].
  destruct (weightedRandom_world w) as [k [Hk Hw]].
  exists v, k. split; [exact Hk |]. split; [| exact Hin].
  rewrite (surjective_pairing (weightedRandom w)), Hv, Hw. reflexivity.
Qed.

Lemma trialLoop_step (n : nat) (results : object) (w w1 : world) (v : value) :
  weightedRandom w = (Normal v, w1) ->
  trialLoop (S n) results w =
  trialLoop n (match v with
               | Item it => obj_increment results (name it)
               | Null | Undefined => results
               end) w1.
Proof.
  intros H. cbn [trialLoop]. unfold bind. rewrite H. reflexivity.
Qed.

(** The trial loop completes normally, calls the sampler once per
    iteration, writes nothing else than the two counters, and keeps the
    keys of the tally among the names of the items. *)
Lemma trialLoop_frame (n : nat) :
  forall (results : object) (w : world),
    exists results' rc,
      trialLoop n results w =
      (Normal results',
       set_random_calls rc (set_sampler_calls (sampler_calls w + n) w)) /\
      (random_calls w <= rc <= random_calls w + n)%nat /\
      (forall arr,
          items w = Some arr ->
          (forall k, In k (map fst results) -> In k (map name arr)) ->
          forall k, In k (map fst results') -> In k (map name arr)).
Proof.
  induction n as [| n IH]; intros results w.
  - exists results, (random_calls w). simpl. unfold ret.
    split; [| split; [lia | auto]].
    f_equal. destruct w. unfold set_random_calls, set_sampler_calls. simpl.
    rewrite Nat.add_0_r. reflexivity.
  - destruct (weightedRandom_run w) as [v [k [Hk [Hrun Hin]]]].
    rewrite (trialLoop_step n results w _ v Hrun).
    set (w1 := set_random_calls (random_calls w + k)
                 (set_sampler_calls (S (sampler_calls w)) w)).
    set (results1 := match v with
                     | Item it => obj_increment results (name it)
                     | _ => results
                     end).
    destruct (IH results1 w1) as [results' [rc [Hloop [Hrc Hkeys']]]].
    exists results', rc. split; [| split].
    + rewrite Hloop. f_equal. subst w1.
      unfold set_random_calls, set_sampler_calls. simpl.
      f_equal. lia.
    + subst w1. simpl in Hrc. lia.
    + intros arr Hitems Hkeys. apply (Hkeys' arr Hitems).
      intros key Hkey. subst results1. destruct v as [| | it]; auto.
      apply obj_set_keys_incl in Hkey. destruct Hkey as [Hkey | ->]; auto.
      destruct (Hin it eq_refl) as [arr' [Harr' Hit]].
      assert (arr' = arr) as -> by congruence.
      apply in_map. exact Hit.
Qed.

(** ** Too few options *)

(** C6. With fewer than two options, [runSimulation] shows the validation
    message and does nothing else: the sampler is not called, no random
    number is drawn, and the result element is left as it was. *)
Theorem too_few_options_no_trials (w : world) :
  (List.length (options w) < 2)%nat ->
  fst (runSimulation w) = Normal tt /\
  alerts (snd (runSimulation w)) = (alerts w ++ [too_few_options])%list /\
  sampler_calls (snd (runSimulation w)) = sampler_calls w /\
  random_calls (snd (runSimulation w)) = random_calls w /\
  simulationResultDiv (snd (runSimulation w)) = simulationResultDiv w /\
  options (snd (runSimulation w)) = options w.
Proof.
  intros Hlen. unfold runSimulation, bind, read, modify, alert. cbn [fst snd].
  unfold collectItems. rewrite length_map.
  apply Nat.ltb_lt in Hlen. rewrite Hlen. cbn. repeat split.
Qed.

(** A single option. *)
Lemma too_few_options_no_trials_witness :
  alerts (snd (runSimulation
                 (initial_world [mkOpt "A" (JInteger 1)] zero_source)))
  = [too_few_options].
Proof.
  apply (too_few_options_no_trials
           (initial_world [mkOpt "A" (JInteger 1)] zero_source)).
  simpl. lia.
Defined.

(** ** The tally of a run without the key of the prototype accessor *)

Lemma put_own_NoDup (o : object) (key : string) (v : number) :
  NoDup (map fst o) -> NoDup (map fst (put_own o key v)).
Proof.
  intros H. destruct (in_dec string_dec key (map fst o)) as [Hin | Hout].
  - rewrite put_own_keys_In by assumption. exact H.
  - rewrite put_own_keys_fresh by assumption.
    apply NoDup_app; [exact H | repeat constructor; simpl; tauto |].
    intros x Hx [<- | []]. tauto.
Qed.

Lemma put_own_zero (o : object) (key : string) :
  Forall (fun kv => snd kv = Fin 0) o ->
  Forall (fun kv => snd kv = Fin 0) (put_own o key (Fin 0)).
Proof.
  induction 1 as [| [k v] rest Hv Hrest IH]; simpl.
  - repeat constructor.
  - destruct (String.eqb k key); constructor; auto.
Qed.

Lemma put_own_keys_has (o : object) (key k : string) (v : number) :
  In k (map fst o) \/ k = key -> In k (map fst (put_own o key v)).
Proof.
  destruct (in_dec string_dec key (map fst o)) as [Hin | Hout].
  - rewrite put_own_keys_In by assumption. intros [H | ->]; assumption.
  - rewrite put_own_keys_fresh by assumption. rewrite in_app_iff. simpl.
    intuition.
Qed.

Lemma initResults_tally (arr : list item) :
  Forall (fun it => name it <> "__proto__") arr ->
  NoDup (map fst (initResults arr)) /\
  (forall nm, In nm (map fst (initResults arr)) <-> In nm (map name arr)) /\
  Forall (fun kv => snd kv = Fin 0) (initResults arr).
Proof.
  intros Hproto. unfold initResults.
  assert (forall o,
             NoDup (map fst o) -> Forall (fun kv => snd kv = Fin 0) o ->
             let o' := fold_left
                         (fun results it => obj_set results (name it) (Fin 0))
                         arr o in
             NoDup (map fst o') /\
             (forall nm, In nm (map fst o')
                         <-> In nm (map fst o) \/ In nm (map name arr)) /\
             Forall (fun kv => snd kv = Fin 0) o') as H.
  { induction Hproto as [| x rest Hx Hrest IH]; intros o Hnd Hz; simpl.
    - repeat split; tauto.
    - assert (obj_set o (name x) (Fin 0) = put_own o (name x) (Fin 0)) as ->.
      { unfold obj_set. apply String.eqb_neq in Hx. rewrite Hx. reflexivity. }
      destruct (IH (put_own o (name x) (Fin 0))) as [H1 [H2 H3]].
      + apply put_own_NoDup. exact Hnd.
      + apply put_own_zero. exact Hz.
      + split; [exact H1 |]. split; [| exact H3].
        intros nm. rewrite H2. split.
        * intros [H | H]; [| tauto].
          apply put_own_keys_incl in H. destruct H as [H | ->]; tauto.
        * intros [H | [<- | H]]; [left | left | tauto];
            apply put_own_keys_has; tauto. }
  destruct (H [] (NoDup_nil _) (Forall_nil _)) as [H1 [H2 H3]].
  split; [exact H1 |]. split; [| exact H3].
  intros nm. rewrite H2. simpl. tauto.
Qed.

Lemma zero_counts (o : object) :
  Forall (fun kv => snd kv = Fin 0) o ->
  counts_of o (repeat 0%nat (List.length o)) /\
  list_sum (repeat 0%nat (List.length o)) = 0%nat.
Proof.
  unfold counts_of. induction 1 as [| [k v] rest Hv Hrest [IH1 IH2]]; simpl.
  - split; reflexivity.
  - simpl in Hv. subst v. rewrite IH1. split; [reflexivity | exact IH2].
Qed.

Lemma put_own_increment (o : object) (key : string) :
  forall counts,
    In key (map fst o) -> counts_of o counts ->
    exists counts',
      counts_of (put_own o key (add (obj_get_number o key) (Fin 1))) counts' /\
      list_sum counts' = S (list_sum counts).
Proof.
  unfold counts_of, obj_get_number.
  induction o as [| [k v] rest IH]; intros counts Hin Hc; simpl in *;
    [tauto |].
  destruct counts as [| c cs]; [discriminate |]. injection Hc as Hv Hcs.
  destruct (String.eqb k key) eqn:E.
  - exists (S c :: cs). simpl. rewrite Hv, add_num_of_nat_1, Hcs.
    split; reflexivity.
  - destruct (IH cs) as [cs' [H1 H2]]; [| exact Hcs |].
    + destruct Hin as [-> | Hin]; [| exact Hin].
      rewrite String.eqb_refl in E. discriminate.
    + exists (c :: cs'). simpl. rewrite Hv, H1. split; [reflexivity | lia].
Qed.

Lemma obj_increment_counts (o : object) (key : string) (counts : list nat) :
  key <> "__proto__" -> In key (map fst o) -> counts_of o counts ->
  map fst (obj_increment o key) = map fst o /\
  exists counts',
    counts_of (obj_increment o key) counts' /\
    list_sum counts' = S (list_sum counts).
Proof.
  intros Hproto Hin Hc. unfold obj_increment, obj_set.
  apply String.eqb_neq in Hproto. rewrite Hproto. split.
  - apply put_own_keys_In. exact Hin.
  - apply put_own_increment; assumption.
Qed.

Lemma weightedRandom_picks_run (w : world) (arr : list item) :
  items w = Some arr -> arr <> [] -> 0 <= draw w < 1 ->
  exists it,
    In it arr /\
    weightedRandom w =
    (Normal (Item it),
     set_random_calls (S (random_calls w))
       (set_sampler_calls (S (sampler_calls w)) w)).
Proof.
  intros Hitems Hne Hu.
  destruct (weightedRandom_picks w arr Hitems Hne Hu) as [it [Hit Hin]].
  exists it. split; [exact Hin |].
  rewrite (weightedRandom_nonempty w arr Hitems Hne) in Hit |- *.
  cbn [fst] in Hit. rewrite Hit. reflexivity.
Qed.

Lemma trialLoop_tally (arr : list item) (n : nat) :
  arr <> [] ->
  Forall (fun it => name it <> "__proto__") arr ->
  forall (results : object) (w : world) (counts : list nat),
    items w = Some arr -> uniform_source w ->
    (forall nm, In nm (map name arr) -> In nm (map fst results)) ->
    counts_of results counts ->
    exists results' counts',
      fst (trialLoop n results w) = Normal results' /\
      map fst results' = map fst results /\
      counts_of results' counts' /\
      list_sum counts' = (list_sum counts + n)%nat /\
      sampler_calls (snd (trialLoop n results w)) = (sampler_calls w + n)%nat /\
      random_calls (snd (trialLoop n results w)) = (random_calls w + n)%nat.
Proof.
  intros Hne Hproto.
  induction n as [| n IH]; intros results w counts Hitems Hsrc Hkeys Hc.
  - exists results, counts. simpl. repeat split; auto.
  - destruct (weightedRandom_picks_run w arr Hitems Hne (Hsrc _))
      as [it [Hin Hrun]].
    rewrite (trialLoop_step n results w _ _ Hrun).
    set (w1 := set_random_calls (S (random_calls w))
                 (set_sampler_calls (S (sampler_calls w)) w)).
    assert (name it <> "__proto__") as Hit
        by (rewrite Forall_forall in Hproto; auto).
    assert (In (name it) (map fst results)) as Hkey
        by (apply Hkeys, in_map, Hin).
    destruct (obj_increment_counts results (name it) counts Hit Hkey Hc)
      as [Hsame [counts1 [Hc1 Hsum1]]].
    destruct (IH (obj_increment results (name it)) w1 counts1)
      as [results' [counts' [H1 [H2 [H3 [H4 [H5 H6]]]]]]]; auto.
    + rewrite Hsame. exact Hkeys.
    + exists results', counts'. rewrite H1, H2, Hsame, H4, H5, H6, Hsum1.
      subst w1. simpl. repeat split; auto; lia.
Qed.

(** The tally is complete when no item is named ["__proto__"]: one entry per
    distinct name, counts that are natural numbers and sum to the number
    of trials, one call of the sampler per trial. *)
Lemma runTrials_tally_complete (w : world) (arr : list item) (n : nat) :
  items w = Some arr -> (2 <= List.length arr)%nat ->
  Forall (fun it => name it <> "__proto__") arr ->
  uniform_source w ->
  exists results counts,
    fst (runTrials arr n w) = Normal results /\
    NoDup (map fst results) /\
    (forall nm, In nm (map fst results) <-> In nm (map name arr)) /\
    counts_of results counts /\
    list_sum counts = n /\
    sampler_calls (snd (runTrials arr n w)) = (sampler_calls w + n)%nat.
Proof.
  intros Hitems Hlen Hproto Hsrc. unfold runTrials.
  destruct (initResults_tally arr Hproto) as [Hnd [Hkeys Hzero]].
  destruct (zero_counts _ Hzero) as [Hc0 Hs0].
  assert (arr <> []) as Hne by (intros ->; simpl in Hlen; lia).
  destruct (trialLoop_tally arr n Hne Hproto (initResults arr) w _
              Hitems Hsrc (fun nm H => proj2 (Hkeys nm) H) Hc0)
    as [results [counts [H1 [H2 [H3 [H4 [H5 _]]]]]]].
  exists results, counts. rewrite H1, H2, H5. repeat split; auto.
  - apply Hkeys.
  - apply Hkeys.
  - lia.
Qed.

(** C5 fails on an option named ["__proto__"]: with the options
    [__proto__] and [B] and draws that are all 0, every one of the 1000
    trials is won by [__proto__], and the tally ends with the single entry
    [B: 0]. *)
Theorem proto_name_is_not_tallied :
  collectItems proto_options
  = [mkItem "__proto__" (Fin 1); mkItem "B" (Fin 1)] /\
  fst (weightedRandom
         (set_items (Some (collectItems proto_options))
                    (initial_world proto_options zero_source)))
  = Normal (Item (mkItem "__proto__" (Fin 1))) /\
  fst (runTrials (collectItems proto_options) TRIAL_COUNT
         (set_items (Some (collectItems proto_options))
                    (initial_world proto_options zero_source)))
  = Normal [("B", Fin 0)] /\
  simulationResultDiv
    (snd (runSimulation (initial_world proto_options zero_source)))
  = [H3 "1000回試行結果:"; P "B" (Fin 0) (Fin (0 # 1000)) (Fin (100 # 2))].
Proof.
  repeat split; vm_compute; reflexivity.
Qed.

(** ** The result lines *)

Lemma insert_by_index_In (e x : Z * (string * number))
      (l : list (Z * (string * number))) :
  In x (insert_by_index e l) -> x = e \/ In x l.
Proof.
  induction l as [| e' rest IH]; simpl.
  - intuition.
  - destruct (fst e <=? fst e')%Z; simpl; intuition.
Qed.

Lemma index_entries_In (o : object) (e : Z * (string * number)) :
  In e (index_entries o) -> In (snd e) o.
Proof.
  unfold index_entries. induction o as [| kv rest IH]; simpl; [tauto |].
  destruct (array_index (fst kv)); [| auto].
  intros H. apply insert_by_index_In in H. destruct H as [-> | H]; auto.
Qed.

Lemma enumerate_In (o : object) (kv : string * number) :
  In kv (enumerate o) -> In kv o.
Proof.
  unfold enumerate, named_entries. rewrite in_app_iff, in_map_iff.
  intros [[e [<- He]] | H].
  - apply index_entries_In. exact He.
  - apply filter_In in H. tauto.
Qed.

Lemma find_first_named (arr : list item) (nm : string) :
  In nm (map name arr) ->
  exists first, find_by_name arr nm = Some first /\ first_named arr nm first.
Proof.
  unfold find_by_name, first_named.
  induction arr as [| x rest IH]; simpl; [tauto |].
  intros Hin. destruct (String.eqb (name x) nm) eqn:E.
  - apply String.eqb_eq in E. exists x. split; [reflexivity |].
    exists [], rest. repeat split; auto.
  - apply String.eqb_neq in E. destruct Hin as [Hin | Hin]; [congruence |].
    destruct (IH Hin) as [first [Hfind [pre [post [Heq [Hnm Hpre]]]]]].
    exists first. split; [exact Hfind |].
    exists (x :: pre), post. rewrite Heq. repeat split; auto.
Qed.

(** The theoretical percentage of lines 270-273, given the item found. *)
Lemma weightPercentageOf_found (arr : list item) (total : number)
      (nm : string) (first : item) (w : world) :
  find_by_name arr nm = Some first ->
  weightPercentageOf arr total nm w =
  (Normal (if gtb total (Fin 0)
           then mul (div (weight first) total) (Fin 100)
           else div (Fin 100) (num_of_nat (List.length arr))), w).
Proof.
  intros H. unfold weightPercentageOf. rewrite H.
  destruct (gtb total (Fin 0)); reflexivity.
Qed.

Lemma displayLoop_run (arr : list item) (total : number) (entries : object) :
  forall w : world,
    (forall k, In k (map fst entries) -> In k (map name arr)) ->
    exists lines,
      displayLoop entries arr total w =
      (Normal tt,
       set_simulationResultDiv (simulationResultDiv w ++ lines)%list w) /\
      Forall
        (fun line =>
           exists nm c p first,
             first_named arr nm first /\
             line = P nm c p
                      (if gtb total (Fin 0)
                       then mul (div (weight first) total) (Fin 100)
                       else div (Fin 100) (num_of_nat (List.length arr))))
        lines.
Proof.
  induction entries as [| [nm count] rest IH]; intros w Hkeys.
  - exists []. split; [| constructor]. simpl. unfold ret.
    rewrite app_nil_r. destruct w. reflexivity.
  - destruct (find_first_named arr nm) as [first [Hfind Hfirst]].
    { apply Hkeys. simpl. auto. }
    cbn [displayLoop]. unfold bind at 1.
    rewrite (weightPercentageOf_found arr total nm first w Hfind).
    unfold bind at 1. unfold modify at 1.
    match goal with
    | |- context [displayLoop rest arr total ?w'] => set (w1 := w')
    end.
    destruct (IH w1) as [lines [Hrun Hlines]].
    { intros k Hk. apply Hkeys. simpl. auto. }
    eexists (_ :: lines). split.
    + rewrite Hrun. subst w1. unfold set_simulationResultDiv. simpl.
      rewrite <- app_assoc. reflexivity.
    + constructor; [| exact Hlines]. eauto 6.
Qed.

(** ** A whole run of [runSimulation] on two options or more *)

Lemma runSimulation_run (w : world) :
  (2 <= List.length (options w))%nat ->
  let arr := collectItems (options w) in
  exists lines rc,
    runSimulation w =
    (Normal tt,
     set_simulationResultDiv (H3 "1000回試行結果:" :: lines)
       (set_random_calls rc
          (set_sampler_calls (sampler_calls w + TRIAL_COUNT)
             (set_items (Some arr) w)))) /\
    Forall
      (fun line =>
         exists nm c p first,
           first_named arr nm first /\
           line = P nm c p
                    (if gtb (totalWeight arr) (Fin 0)
                     then mul (div (weight first) (totalWeight arr)) (Fin 100)
                     else div (Fin 100) (num_of_nat (List.length arr))))
      lines.
Proof.
  intros Hlen arr.
  destruct (trialLoop_frame TRIAL_COUNT (initResults arr)
              (set_items (Some arr) w))
    as [results [rc [Hloop [_ Hkeys]]]].
  specialize (Hkeys arr eq_refl (initResults_keys_incl arr)).
  set (w1 := set_random_calls rc
               (set_sampler_calls (sampler_calls w + TRIAL_COUNT)
                  (set_items (Some arr) w))).
  destruct (displayLoop_run arr (totalWeight arr) (enumerate results)
              (set_simulationResultDiv [H3 "1000回試行結果:"] w1))
    as [lines [Hshow Hlines]].
  { intros k Hk. apply in_map_iff in Hk. destruct Hk as [[k' v] [<- Hkv]].
    apply Hkeys. apply enumerate_In in Hkv.
    apply (in_map fst) in Hkv. exact Hkv. }
  exists lines, rc. split; [| exact Hlines].
  unfold runSimulation, bind, read, modify. fold arr.
  assert ((List.length arr <? 2)%nat = false) as ->.
  { apply Nat.ltb_ge. unfold arr, collectItems. rewrite length_map. exact Hlen. }
  unfold runTrials. rewrite Hloop. cbv beta iota. exact Hshow.
Qed.

(** ** Printing an integer and reading it back *)






(** ** The normalisation of the weights *)


Lemma truthy_num_of_Z (z : Z) : truthy (num_of_Z z) = negb (z =? 0)%Z.
Proof.
  unfold truthy, num_of_Z, Qeq_bool, inject_Z. simpl.
  rewrite Z.mul_1_r. destruct z; reflexivity.
Qed.


Lemma collectItems_length (os : list opt) :
  List.length (collectItems os) = List.length os.
Proof. unfold collectItems. apply length_map. Qed.



(** ** Inputs, weights and percentages of a run *)

(** C7. The sampler leaves its array and the options as they were; so do
    the trial loop, whatever the number of trials, and [runSimulation]
    for its input, the options. *)
Theorem sampler_and_runner_leave_input_unchanged (w : world) :
  (items (snd (weightedRandom w)) = items w /\
   options (snd (weightedRandom w)) = options w) /\
  (forall arr n,
      items (snd (runTrials arr n w)) = items w /\
      options (snd (runTrials arr n w)) = options w) /\
  options (snd (runSimulation w)) = options w.
Proof.
  split; [| split].
  - destruct (weightedRandom_world w) as [k [_ Hw]]. rewrite Hw.
    split; reflexivity.
  - intros arr n. unfold runTrials.
    destruct (trialLoop_frame n (initResults arr) w)
      as [results [rc [Hloop _]]].
    rewrite Hloop. split; reflexivity.
  - destruct (Nat.lt_ge_cases (List.length (options w)) 2) as [Hlt | Hge].
    + unfold runSimulation, bind, read, modify, alert.
      rewrite collectItems_length.
      apply Nat.ltb_lt in Hlt. rewrite Hlt. reflexivity.
    + destruct (runSimulation_run w Hge) as [lines [rc [Hrun _]]].
      rewrite Hrun. reflexivity.
Qed.



(** C10, as stated, fails when the total weight is not positive: with two
    options named [A] of weights -1 and -3 the line of [A] shows 100/2,
    not the share of the first [A] in the total, which is 25. *)
Lemma nonpositive_total_shows_uniform_percentage :
  simulationResultDiv
    (snd (runSimulation (initial_world negative_duplicate_options zero_source)))
  = [H3 "1000回試行結果:";
     P "A" (Fin 1000) (Fin (100000 # 1000)) (Fin (100 # 2))] /\
  find_by_name (collectItems negative_duplicate_options) "A"
  = Some (mkItem "A" (Fin (-1))) /\
  mul (div (Fin (-1)) (totalWeight (collectItems negative_duplicate_options)))
      (Fin 100)
  = Fin (100 # 4) /\
  ~ (100 # 2 == 100 # 4).
Proof.
  repeat split; try (vm_compute; reflexivity).
  intros H. vm_compute in H. discriminate.
Qed.

(** C10 (amended). After a run on two options or more, every line shows
    for its name the share of the first item of that name in the total
    weight when the total is positive, and 100 over the number of items
    otherwise; and with the two options [A: 1] and [A: 3] the only line
    shows 25, so the shown percentages do not sum to 100. *)
Theorem theoretical_percentage_of_first_named (w : world) :
  (2 <= List.length (options w))%nat ->
  (exists lines,
      simulationResultDiv (snd (runSimulation w))
      = H3 "1000回試行結果:" :: lines /\
      Forall
        (fun line =>
           exists nm c p first,
             first_named (collectItems (options w)) nm first /\
             line =
             P nm c p
               (if gtb (totalWeight (collectItems (options w))) (Fin 0)
                then mul (div (weight first)
                              (totalWeight (collectItems (options w))))
                         (Fin 100)
                else div (Fin 100)
                         (num_of_nat (List.length (collectItems (options w))))))
        lines) /\
  simulationResultDiv
    (snd (runSimulation (initial_world duplicate_options zero_source)))
  = [H3 "1000回試行結果:";
     P "A" (Fin 1000) (Fin (100000 # 1000)) (Fin (100 # 4))] /\
  ~ (100 # 4 == 100).
Proof.
  intros Hlen. split; [| split].
  - destruct (runSimulation_run w Hlen) as [lines [rc [Hrun Hlines]]].
    exists lines. rewrite Hrun. split; [reflexivity | exact Hlines].
  - vm_compute. reflexivity.
  - intros H. vm_compute in H. discriminate.
Qed.

(** The two options the page starts with. *)
Lemma theoretical_percentage_of_first_named_witness :
  exists lines,
    simulationResultDiv
      (snd (runSimulation (initial_world default_options half)))
    = H3 "1000回試行結果:" :: lines.
Proof.
  destruct (theoretical_percentage_of_first_named
              (initial_world default_options half)) as [[lines [H _]] _].
  - simpl. lia.
  - exists lines. exact H.
Defined.

(** ** More about the weighted branch *)





(** ** Equal weights, scaled weights *)









(** ** A run of the simulation, counted *)

(** On a non-empty array every trial draws one random number. *)
Lemma trialLoop_draws (arr : list item) (n : nat) :
  arr <> [] ->
  forall (results : object) (w : world),
    items w = Some arr ->
    snd (trialLoop n results w) =
    set_random_calls (random_calls w + n)
      (set_sampler_calls (sampler_calls w + n) w).
Proof.
  intros Hne. induction n as [| n IH]; intros results w Hitems.
  - simpl. destruct w. unfold set_random_calls, set_sampler_calls. simpl.
    rewrite !Nat.add_0_r. reflexivity.
  - pose proof (weightedRandom_nonempty w arr Hitems Hne) as Hrun.
    rewrite (trialLoop_step n results w _ _ Hrun).
    rewrite IH by exact Hitems.
    unfold set_random_calls, set_sampler_calls. simpl. f_equal; lia.
Qed.

(** The paragraphs of the display loop, entry by entry. *)
Lemma displayLoop_lines (arr : list item) (total : number) (entries : object) :
  forall w : world,
    (forall k, In k (map fst entries) -> In k (map name arr)) ->
    displayLoop entries arr total w =
    (Normal tt,
     set_simulationResultDiv
       (simulationResultDiv w ++ map (expected_line arr total) entries)%list w).
Proof.
  induction entries as [| [nm count] rest IH]; intros w Hkeys.
  - simpl. unfold ret. rewrite app_nil_r. destruct w. reflexivity.
  - destruct (find_first_named arr nm) as [first [Hfind _]].
    { apply Hkeys. simpl. auto. }
    cbn [displayLoop]. unfold bind at 1.
    rewrite (weightPercentageOf_found arr total nm first w Hfind).
    unfold bind at 1. unfold modify at 1.
    rewrite IH by (intros k Hk; apply Hkeys; simpl; auto).
    unfold set_simulationResultDiv. simpl. rewrite Hfind.
    rewrite <- app_assoc. reflexivity.
Qed.

(** A run on two options or more, with its counters and its lines. *)
Lemma runSimulation_run_counted (w : world) :
  (2 <= List.length (options w))%nat ->
  let arr := collectItems (options w) in
  exists results,
    fst (runTrials arr TRIAL_COUNT (set_items (Some arr) w)) = Normal results /\
    runSimulation w =
    (Normal tt,
     set_simulationResultDiv
       (H3 "1000回試行結果:"
           :: map (expected_line arr (totalWeight arr)) (enumerate results))
       (set_random_calls (random_calls w + TRIAL_COUNT)
          (set_sampler_calls (sampler_calls w + TRIAL_COUNT)
             (set_items (Some arr) w)))).
Proof.
  intros Hlen arr.
  assert (arr <> []) as Hne.
  { intros H. apply (f_equal (@List.length item)) in H.
    unfold arr in H. rewrite collectItems_length in H. simpl in H. lia. }
  destruct (trialLoop_frame TRIAL_COUNT (initResults arr)
              (set_items (Some arr) w))
    as [results [rc [Hloop [_ Hkeys]]]].
  specialize (Hkeys arr eq_refl (initResults_keys_incl arr)).
  pose proof (trialLoop_draws arr TRIAL_COUNT Hne (initResults arr)
                (set_items (Some arr) w) eq_refl) as Hdraws.
  rewrite Hloop in Hdraws. cbn [snd] in Hdraws.
  apply (f_equal random_calls) in Hdraws. simpl in Hdraws. subst rc.
  exists results. split.
  - unfold runTrials. rewrite Hloop. reflexivity.
  - unfold runSimulation, bind, read, modify. fold arr.
    assert ((List.length arr <? 2)%nat = false) as ->.
    { apply Nat.ltb_ge. unfold arr. rewrite collectItems_length. exact Hlen. }
    unfold runTrials. rewrite Hloop. cbv beta iota.
    rewrite displayLoop_lines.
    + reflexivity.
    + intros k Hk. apply in_map_iff in Hk. destruct Hk as [[k' v] [<- Hkv]].
      apply Hkeys. apply enumerate_In in Hkv.
      apply (in_map fst) in Hkv. exact Hkv.
Qed.



(** ** The lines of a run and the names of the options *)

Lemma insert_by_index_Permutation (e : Z * (string * number))
      (l : list (Z * (string * number))) :
  Permutation (insert_by_index e l) (e :: l).
Proof.
  induction l as [| e' rest IH]; simpl; [reflexivity |].
  destruct (fst e <=? fst e')%Z; [reflexivity |].
  rewrite IH. apply perm_swap.
Qed.

(** [for ... in] visits every own property once. *)
Lemma enumerate_Permutation (o : object) : Permutation (enumerate o) o.
Proof.
  unfold enumerate, index_entries, named_entries.
  induction o as [| kv rest IH]; simpl; [reflexivity |].
  destruct (array_index (fst kv)).
  - rewrite insert_by_index_Permutation. simpl. constructor. exact IH.
  - rewrite <- Permutation_middle. constructor. exact IH.
Qed.

Lemma list_sum_Permutation (l l' : list nat) :
  Permutation l l' -> list_sum l = list_sum l'.
Proof.
  induction 1; simpl; lia.
Qed.

Lemma counts_of_entries (results : object) (counts : list nat) :
  counts_of results counts ->
  exists entries : list (string * nat),
    results = map (fun e => (fst e, num_of_nat (snd e))) entries /\
    map fst entries = map fst results /\
    map snd entries = counts.
Proof.
  unfold counts_of. revert counts.
  induction results as [| [k v] rest IH]; intros [| c cs] H; simpl in H;
    try discriminate.
  - exists []. repeat split.
  - injection H as Hv Hrest. destruct (IH cs Hrest) as [ents [H1 [H2 H3]]].
    exists ((k, c) :: ents). simpl. rewrite <- H1, H2, H3, Hv. repeat split.
Qed.

Lemma collectItems_names (os : list opt) :
  map name (collectItems os) = map opt_name os.
Proof. unfold collectItems. rewrite map_map. reflexivity. Qed.

(** X6. With a source of draws in [0, 1) and no option named
    ["__proto__"], a run on two options or more shows one paragraph per
    distinct name of the options; the counts shown are natural numbers
    that sum to 1000, each with its share of the 1000 trials in percent. *)
Theorem simulation_lines_tally_every_name (w : world) :
  (2 <= List.length (options w))%nat ->
  Forall (fun o => opt_name o <> "__proto__") (options w) ->
  uniform_source w ->
  exists (entries : list (string * nat)) (lines : list node),
    simulationResultDiv (snd (runSimulation w)) = H3 "1000回試行結果:" :: lines /\
    Forall2
      (fun e line =>
         exists t,
           line = P (fst e) (num_of_nat (snd e))
                    (mul (div (num_of_nat (snd e)) (num_of_nat 1000)) (Fin 100))
                    t)
      entries lines /\
    NoDup (map fst entries) /\
    (forall nm, In nm (map fst entries) <-> In nm (map opt_name (options w))) /\
    list_sum (map snd entries) = 1000%nat.
Proof.
  intros Hlen Hproto Hsrc.
  destruct (runSimulation_run_counted w Hlen) as [results [Hres Hrun]].
  set (arr := collectItems (options w)) in *.
  destruct (runTrials_tally_complete (set_items (Some arr) w) arr TRIAL_COUNT)
    as [results' [counts [Hres' [Hnd [Hkeys [Hc [Hsum _]]]]]]].
  - reflexivity.
  - unfold arr. rewrite collectItems_length. exact Hlen.
  - unfold arr, collectItems. apply Forall_map. simpl. exact Hproto.
  - exact Hsrc.
  - assert (results' = results) as -> by congruence.
    destruct (counts_of_entries results counts Hc) as [ents [He1 [He2 He3]]].
    pose proof (enumerate_Permutation results) as Hperm.
    rewrite He1 in Hperm at 2.
    apply Permutation_map_inv in Hperm.
    destruct Hperm as [ents' [Henum Hperm']].
    exists ents', (map (expected_line arr (totalWeight arr)) (enumerate results)).
    rewrite Hrun. cbn [snd simulationResultDiv set_simulationResultDiv].
    split; [reflexivity |]. split; [| split; [| split]].
    + rewrite Henum. clear. induction ents' as [| [nm c] rest IH]; simpl.
      * constructor.
      * constructor; [| exact IH]. simpl. eauto.
    + apply (Permutation_NoDup (l := map fst ents)).
      * apply Permutation_map. exact Hperm'.
      * rewrite He2. exact Hnd.
    + intros nm. rewrite <- (collectItems_names (options w)). fold arr.
      rewrite <- Hkeys, <- He2. split; intros H.
      * eapply Permutation_in; [| exact H].
        apply Permutation_map. symmetry. exact Hperm'.
      * eapply Permutation_in; [| exact H].
        apply Permutation_map. exact Hperm'.
    + rewrite <- (list_sum_Permutation (map snd ents)).
      * rewrite He3. exact Hsum.
      * apply Permutation_map. exact Hperm'.
Qed.

(** The two options the page starts with, every draw 1/2. *)
Lemma simulation_lines_tally_every_name_witness :
  exists (entries : list (string * nat)),
    NoDup (map fst entries) /\ list_sum (map snd entries) = 1000%nat.
Proof.
  destruct (simulation_lines_tally_every_name
              (initial_world default_options half))
    as [entries [lines [_ [_ [Hnd [_ Hsum]]]]]].
  - simpl. lia.
  - repeat constructor; discriminate.
  - intros n. split; [discriminate | reflexivity].
  - exists entries. split; assumption.
Defined.

(** ** The options array *)

(** [spin] on two options or more: one call of the sampler, on the
    collected items. *)
Lemma spin_run (w : world) :
  (2 <= List.length (options w))%nat ->
  exists v,
    (forall it, v = Item it -> In it (collectItems (options w))) /\
    (0 <= draw w < 1 -> exists it, v = Item it) /\
    spin w =
    (Normal (match v with Item it => Some it | _ => None end),
     set_spinButton_disabled (match v with Item _ => true | _ => false end)
       (set_resultText "..."
          (set_random_calls (S (random_calls w))
             (set_sampler_calls (S (sampler_calls w))
                (set_items (Some (collectItems (options w))) w))))).
Proof.
  intros Hlen. set (arr := collectItems (options w)).
  assert (arr <> []) as Hne.
  { intros H. apply (f_equal (@List.length item)) in H.
    unfold arr in H. rewrite collectItems_length in H. simpl in H. lia. }
  set (w2 := set_resultText "..."
               (set_spinButton_disabled true (set_items (Some arr) w))).
  pose proof (weightedRandom_nonempty w2 arr eq_refl Hne) as Hrun.
  destruct (weightedRandom_completes w2) as [v [Hv Hin]].
  rewrite Hrun in Hv. cbn [fst] in Hv.
  exists v. split; [| split].
  - intros it Hit. destruct (Hin it Hit) as [arr' [Harr' Hit']].
    simpl in Harr'. injection Harr' as <-. exact Hit'.
  - intros Hu.
    destruct (weightedRandom_picks w2 arr eq_refl Hne Hu) as [it [Hit _]].
    rewrite Hrun in Hit. cbn [fst] in Hit. exists it. congruence.
  - unfold spin, bind, read, modify, ret. fold arr.
    assert ((List.length arr <? 2)%nat = false) as ->.
    { apply Nat.ltb_ge. unfold arr. rewrite collectItems_length. exact Hlen. }
    fold w2. rewrite Hrun. apply Normal_inj in Hv. rewrite Hv.
    destruct v; reflexivity.
Qed.

(** X7. On two options or more and with a draw of [0, 1), [spin] shows no
    alert, disables the button, sets the result text to ["..."], calls the
    sampler once, draws one random number and goes on with one of the
    collected items as the winner; the options are left as they were. *)
Theorem spin_picks_a_collected_item (w : world) :
  (2 <= List.length (options w))%nat ->
  0 <= draw w < 1 ->
  exists it,
    fst (spin w) = Normal (Some it) /\
    In it (collectItems (options w)) /\
    spinButton_disabled (snd (spin w)) = true /\
    resultText (snd (spin w)) = "..." /\
    alerts (snd (spin w)) = alerts w /\
    sampler_calls (snd (spin w)) = S (sampler_calls w) /\
    random_calls (snd (spin w)) = S (random_calls w) /\
    options (snd (spin w)) = options w.
Proof.
  intros Hlen Hu.
  destruct (spin_run w Hlen) as [v [Hin [Hitem Hspin]]].
  destruct (Hitem Hu) as [it ->].
  exists it. rewrite Hspin. cbn [fst snd]. repeat split.
  apply Hin. reflexivity.
Qed.

(** The two options the page starts with, the draw 1/2. *)
Lemma spin_picks_a_collected_item_witness :
  exists it,
    fst (spin (initial_world default_options half)) = Normal (Some it).
Proof.
  destruct (spin_picks_a_collected_item (initial_world default_options half))
    as [it [H _]].
  - simpl. lia.
  - split; [discriminate | reflexivity].
  - exists it. exact H.
Defined.

Section OptionsArrayFacts.

Variables renderOptions drawRoulette : M unit.
Hypothesis render_leaves : leaves_world renderOptions.
Hypothesis draw_leaves : leaves_world drawRoulette.

Lemma write_then_redraw (f : world -> world) (w : world) :
  snd ((modify f ;;; renderOptions ;;; drawRoulette) w) = f w.
Proof.
  unfold bind, modify.
  pose proof (render_leaves (f w)) as Hr.
  destruct (renderOptions (f w)) as [[[] | e] w1]; simpl in Hr; subst w1.
  - apply draw_leaves.
  - reflexivity.
Qed.

Lemma write_then_draw (f : world -> world) (w : world) :
  snd ((modify f ;;; drawRoulette) w) = f w.
Proof. unfold bind, modify. apply draw_leaves. Qed.

Lemma addOption_world (w : world) :
  snd (addOption renderOptions drawRoulette w) =
  if (MAX_OPTIONS <=? List.length (options w))%nat
  then set_alerts (alerts w ++ [option_limit_reached])%list w
  else set_options
         (options w
            ++ [mkOpt ("選択肢 " ++ decimal_of_nat (List.length (options w) + 1))
                      (JInteger 1)])%list w.
Proof.
  unfold addOption. unfold bind at 1. unfold read. cbv beta iota.
  destruct (MAX_OPTIONS <=? List.length (options w))%nat.
  - reflexivity.
  - apply write_then_redraw.
Qed.

Lemma removeOption_world (index : number) (w : world) :
  snd (removeOption renderOptions drawRoulette index w) =
  if (List.length (options w) <=? 2)%nat
  then set_alerts (alerts w ++ [option_minimum_reached])%list w
  else set_options (splice_one (options w) index) w.
Proof.
  unfold removeOption. unfold bind at 1. unfold read. cbv beta iota.
  destruct (List.length (options w) <=? 2)%nat.
  - reflexivity.
  - apply write_then_redraw.
Qed.

Lemma updateOption_world (index : number) (u : update) (w : world) :
  snd (updateOption drawRoulette index u w) =
  match index_position index with
  | Some k =>
      match nth_error (options w) k with
      | Some o => set_options (replace_at k (apply_update u o) (options w)) w
      | None => w
      end
  | None => w
  end.
Proof.
  unfold updateOption. unfold bind at 1. unfold read. cbv beta iota.
  destruct (index_position index) as [k |]; [| reflexivity].
  destruct (nth_error (options w) k); [| reflexivity].
  apply write_then_draw.
Qed.

Lemma initialize_world (w : world) :
  snd (initialize renderOptions drawRoulette w) =
  set_options
    [mkOpt "選択肢 1" (JInteger 1); mkOpt "選択肢 2" (JInteger 1)] w.
Proof. unfold initialize. apply write_then_redraw. Qed.

Lemma replace_at_length {A : Type} (k : nat) (x : A) (l : list A) :
  List.length (replace_at k x l) = List.length l.
Proof.
  revert k. induction l as [| y rest IH]; intros [| k]; simpl; auto.
Qed.

Lemma replace_at_nth {A : Type} (k j : nat) (x : A) (l : list A) :
  nth_error (replace_at k x l) j =
  match nth_error l j with
  | Some y => Some (if (j =? k)%nat then x else y)
  | None => None
  end.
Proof.
  revert k j. induction l as [| y rest IH]; intros [| k] [| j]; simpl;
    try reflexivity.
  - destruct (nth_error rest j); reflexivity.
  - apply IH.
Qed.

Lemma splice_start_le (len : nat) (start : number) :
  (splice_start len start <= len)%nat.
Proof.
  unfold splice_start. destruct start as [q | | |]; try lia.
  destruct (truncate q <? 0)%Z eqn:E; lia.
Qed.

Lemma splice_one_length {A : Type} (arr : list A) (start : number) :
  (List.length arr - 1 <= List.length (splice_one arr start)
   <= List.length arr)%nat.
Proof.
  unfold splice_one. pose proof (splice_start_le (List.length arr) start).
  rewrite length_app, length_firstn, length_skipn. lia.
Qed.

Lemma dispatch_keeps_count (ev : event) (w : world) :
  option_count_ok w ->
  option_count_ok (snd (dispatch renderOptions drawRoulette ev w)).
Proof.
  unfold option_count_ok, MAX_OPTIONS. intros Hok.
  destruct ev as [| e | e]; simpl.
  - rewrite addOption_world. unfold MAX_OPTIONS.
    destruct (10 <=? List.length (options w))%nat eqn:E; simpl.
    + exact Hok.
    + apply Nat.leb_gt in E. rewrite length_app. simpl. lia.
  - unfold onOptionsChange. destruct (target_is_input e); [| exact Hok].
    rewrite updateOption_world.
    destruct (index_position _) as [k |]; [| exact Hok].
    destruct (nth_error (options w) k); [| exact Hok].
    simpl. rewrite replace_at_length. exact Hok.
  - unfold onOptionsClick. destruct (target_is_remove e); [| exact Hok].
    rewrite removeOption_world.
    destruct (List.length (options w) <=? 2)%nat eqn:E; simpl.
    + exact Hok.
    + apply Nat.leb_gt in E.
      pose proof (splice_one_length (options w)
                    (parseInt (target_data_index e))).
      lia.
Qed.

Lemma after_events_keeps_count (evs : list event) (w : world) :
  option_count_ok w ->
  option_count_ok (after_events renderOptions drawRoulette evs w).
Proof.
  unfold after_events. revert w.
  induction evs as [| ev rest IH]; intros w Hok; simpl; [exact Hok |].
  apply IH. apply dispatch_keeps_count. exact Hok.
Qed.

(** X8. From [initialize] on, whatever clicks and changes follow, the
    page holds at least 2 and at most 10 options. *)
Theorem option_count_stays_within_bounds (evs : list event) (w : world) :
  (2 <= List.length
          (options (after_events renderOptions drawRoulette evs
                      (snd (initialize renderOptions drawRoulette w))))
   <= 10)%nat.
Proof.
  apply after_events_keeps_count. rewrite initialize_world.
  unfold option_count_ok, MAX_OPTIONS. simpl. lia.
Qed.


(** X9. From [initialize] on, whatever clicks and changes follow, neither
    [runSimulation] nor [spin] shows the alert asking for two options:
    the simulation runs its 1000 trials and [spin] calls the sampler. *)
Theorem too_few_options_alert_unreachable (evs : list event) (w : world) :
  let w' := after_events renderOptions drawRoulette evs
              (snd (initialize renderOptions drawRoulette w)) in
  alerts (snd (runSimulation w')) = alerts w' /\
  sampler_calls (snd (runSimulation w')) = (sampler_calls w' + 1000)%nat /\
  alerts (snd (spin w')) = alerts w' /\
  sampler_calls (snd (spin w')) = S (sampler_calls w').
Proof.
  intros w'.
  assert (option_count_ok w') as [Hlen _].
  { apply after_events_keeps_count. rewrite initialize_world.
    unfold option_count_ok, MAX_OPTIONS. simpl. lia. }
  destruct (runSimulation_run_counted w' Hlen) as [results [_ Hrun]].
  destruct (spin_run w' Hlen) as [v [_ [_ Hspin]]].
  rewrite Hrun, Hspin. cbn [fst snd]. repeat split.
Qed.

Lemma truncate_nat (i : nat) : truncate (inject_Z (Z.of_nat i)) = Z.of_nat i.
Proof.
  unfold truncate.
  assert (Qle_bool 0 (inject_Z (Z.of_nat i)) = true) as ->.
  { apply Qle_bool_iff. change 0 with (inject_Z 0). rewrite <- Zle_Qle. lia. }
  apply Qfloor_Z.
Qed.

Lemma splice_start_nat (len i : nat) :
  splice_start len (num_of_nat i) = Nat.min i len.
Proof.
  unfold splice_start, num_of_nat. rewrite truncate_nat.
  assert ((Z.of_nat i <? 0)%Z = false) as -> by (apply Z.ltb_ge; lia).
  lia.
Qed.

Lemma splice_one_nat {A : Type} (arr : list A) (i : nat) :
  splice_one arr (num_of_nat i) = (firstn i arr ++ skipn (S i) arr)%list.
Proof.
  unfold splice_one. rewrite splice_start_nat.
  destruct (Nat.le_gt_cases i (List.length arr)) as [Hle | Hgt].
  - rewrite Nat.min_l by exact Hle. rewrite Nat.add_1_r. reflexivity.
  - rewrite Nat.min_r by lia.
    rewrite firstn_all, (firstn_all2 (n := i)) by lia.
    rewrite !skipn_all2 by lia. reflexivity.
Qed.

(** X10. With three options or more, [removeOption] at the index [i]
    deletes the option at position [i] and keeps the others in order,
    without any alert; an index past the end deletes nothing. *)
Theorem removeOption_deletes_position (i : nat) (w : world) :
  (3 <= List.length (options w))%nat ->
  options (snd (removeOption renderOptions drawRoulette (num_of_nat i) w))
  = (firstn i (options w) ++ skipn (S i) (options w))%list /\
  alerts (snd (removeOption renderOptions drawRoulette (num_of_nat i) w))
  = alerts w /\
  ((List.length (options w) <= i)%nat ->
   options (snd (removeOption renderOptions drawRoulette (num_of_nat i) w))
   = options w).
Proof.
  intros Hlen. rewrite removeOption_world.
  assert ((List.length (options w) <=? 2)%nat = false) as ->
      by (apply Nat.leb_gt; lia).
  cbn [options alerts set_options]. rewrite splice_one_nat.
  split; [reflexivity |]. split; [reflexivity |].
  intros Hi. rewrite firstn_all2, skipn_all2 by lia. apply app_nil_r.
Qed.

(** X11. With fewer than 10 options and at least 2, adding an option and
    then removing the option at the last index gives back the options
    there were. *)
Theorem add_then_remove_last_restores (w : world) :
  (2 <= List.length (options w) < 10)%nat ->
  options
    (snd (removeOption renderOptions drawRoulette
            (num_of_nat (List.length (options w)))
            (snd (addOption renderOptions drawRoulette w))))
  = options w.
Proof.
  intros [Hlo Hhi]. rewrite removeOption_world, addOption_world.
  unfold MAX_OPTIONS.
  assert ((10 <=? List.length (options w))%nat = false) as ->
      by (apply Nat.leb_gt; lia).
  cbn [options set_options]. rewrite length_app. simpl List.length.
  assert ((List.length (options w) + 1 <=? 2)%nat = false) as ->
      by (apply Nat.leb_gt; lia).
  cbn [options set_options]. rewrite splice_one_nat.
  rewrite firstn_app, firstn_all, Nat.sub_diag. simpl firstn.
  rewrite skipn_all2 by (rewrite length_app; simpl; lia).
  rewrite !app_nil_r. reflexivity.
Qed.

(** X12. [updateOption] keeps the number of options; it changes the one
    option at the position the index denotes, in the one property asked
    for, and no option at all when the index denotes no position of the
    array (NaN, negative, fractional or past the end). *)
Theorem updateOption_changes_one_option (index : number) (u : update)
        (w : world) :
  let os' := options (snd (updateOption drawRoulette index u w)) in
  List.length os' = List.length (options w) /\
  forall j,
    nth_error os' j =
    match nth_error (options w) j with
    | Some o =>
        Some (match index_position index with
              | Some k => if (j =? k)%nat then apply_update u o else o
              | None => o
              end)
    | None => None
    end.
Proof.
  intros os'. subst os'. rewrite updateOption_world.
  destruct (index_position index) as [k |].
  - destruct (nth_error (options w) k) as [o |] eqn:Hk.
    + cbn [options set_options]. split; [apply replace_at_length |].
      intros j. rewrite replace_at_nth.
      destruct (nth_error (options w) j) as [o' |] eqn:Hj; [| reflexivity].
      destruct (Nat.eqb_spec j k) as [-> | Hne]; [| reflexivity].
      congruence.
    + split; [reflexivity |]. intros j.
      destruct (nth_error (options w) j) as [o' |] eqn:Hj; [| reflexivity].
      destruct (Nat.eqb_spec j k) as [-> | Hne]; [congruence | reflexivity].
  - split; [reflexivity |]. intros j.
    destruct (nth_error (options w) j); reflexivity.
Qed.





End OptionsArrayFacts.

(** ** Where [spin] stops the wheel *)












(** ** A stored weight of 22 digits or more *)

Lemma nzhead_not_D0 (d d' : Decimal.uint) : Decimal.nzhead d <> Decimal.D0 d'.
Proof.
  induction d; simpl; try discriminate. exact IHd.
Qed.

Lemma to_uint_head (p : positive) :
  exists c rest dv,
    NilEmpty.string_of_uint (Pos.to_uint p) = String c rest /\
    digit_value c = Some dv /\ (1 <= dv <= 9)%Z /\
    is_white_space c = false /\ Ascii.eqb c "-" = false /\
    Ascii.eqb c "+" = false.
Proof.
  pose proof (DecimalPos.Unsigned.to_uint_nonnil p) as Hnil.
  pose proof (DecimalPos.Unsigned.to_uint_nonzero p) as Hzero.
  pose proof (DecimalPos.Unsigned.to_of (Pos.to_uint p)) as Hnorm.
  rewrite DecimalPos.Unsigned.of_to in Hnorm. simpl in Hnorm.
  destruct (Pos.to_uint p) as [| d | d | d | d | d | d | d | d | d | d] eqn:E;
    [congruence | | ..].
  - exfalso. unfold Decimal.unorm in Hnorm. simpl in Hnorm.
    destruct (Decimal.nzhead d) eqn:En;
      try (symmetry in Hnorm; rewrite <- En in Hnorm;
           exact (nzhead_not_D0 _ _ Hnorm)).
    apply Hzero. exact Hnorm.
  - exists "1"%char, (NilEmpty.string_of_uint d), 1%Z.
    repeat split; try reflexivity; lia.
  - exists "2"%char, (NilEmpty.string_of_uint d), 2%Z.
    repeat split; try reflexivity; lia.
  - exists "3"%char, (NilEmpty.string_of_uint d), 3%Z.
    repeat split; try reflexivity; lia.
  - exists "4"%char, (NilEmpty.string_of_uint d), 4%Z.
    repeat split; try reflexivity; lia.
  - exists "5"%char, (NilEmpty.string_of_uint d), 5%Z.
    repeat split; try reflexivity; lia.
  - exists "6"%char, (NilEmpty.string_of_uint d), 6%Z.
    repeat split; try reflexivity; lia.
  - exists "7"%char, (NilEmpty.string_of_uint d), 7%Z.
    repeat split; try reflexivity; lia.
  - exists "8"%char, (NilEmpty.string_of_uint d), 8%Z.
    repeat split; try reflexivity; lia.
  - exists "9"%char, (NilEmpty.string_of_uint d), 9%Z.
    repeat split; try reflexivity; lia.
Qed.

Lemma exponent_notation_head (c : ascii) (rest : string) :
  exists c' tail,
    exponent_notation (String c rest) = String c (String c' tail) /\
    digit_value c' = None.
Proof.
  unfold exponent_notation.
  destruct (strip_trailing_zeros rest) as [| f frac].
  - do 2 eexists. split; reflexivity.
  - do 2 eexists. split; reflexivity.
Qed.

(** X17. A stored integer weight of magnitude 10^21 or more prints in
    exponent notation, of which [parseInt] reads the first digit only: the
    weight handed to the sampler is that digit, from 1 to 9, with the sign
    of the stored weight. *)
Theorem huge_weight_collapses_to_one_digit (nm : string) (z : Z) :
  (10 ^ 21 <= Z.abs z)%Z ->
  exists d : Z,
    (1 <= d <= 9)%Z /\
    parseInt (JInteger z) = num_of_Z (Z.sgn z * d) /\
    collectItems [mkOpt nm (JInteger z)]
    = [mkItem nm (num_of_Z (Z.sgn z * d))].
Proof.
  intros Hz.
  assert (exists d : Z, (1 <= d <= 9)%Z /\
                        parseInt (JInteger z) = num_of_Z (Z.sgn z * d))
    as [d [Hd Hparse]].
  { unfold parseInt, ToString, digits_of_Z.
    assert ((Z.abs z <? 10 ^ 21)%Z = false) as -> by (apply Z.ltb_ge; exact Hz).
    assert (exists p, Z.to_N (Z.abs z) = Npos p) as [p ->].
    { assert (0 < 10 ^ 21)%Z as Hbig by reflexivity.
      destruct (Z.abs z) eqn:E; try lia. eexists. reflexivity. }
    change (N.to_uint (Npos p)) with (Pos.to_uint p).
    destruct (to_uint_head p)
      as [c [rest [dv [Hs [Hdv [Hrange [Hws [Hminus Hplus]]]]]]]].
    assert (NilZero.string_of_uint (Pos.to_uint p) = String c rest) as ->.
    { unfold NilZero.string_of_uint.
      pose proof (DecimalPos.Unsigned.to_uint_nonnil p).
      destruct (Pos.to_uint p); [congruence | exact Hs ..]. }
    destruct (exponent_notation_head c rest) as [c' [tail [-> Hc']]].
    exists dv. split; [exact Hrange |].
    destruct (z <? 0)%Z eqn:Hneg.
    - change ("-" ++ String c (String c' tail))
        with (String "-" (String c (String c' tail))).
      cbn [skip_white_space]. change (is_white_space "-") with false.
      cbv beta iota. change (Ascii.eqb "-" "-") with true. cbv beta iota.
      rewrite Hdv. cbn [read_digits]. rewrite Hc'.
      apply Z.ltb_lt in Hneg. f_equal. f_equal. lia.
    - change ("" ++ String c (String c' tail))
        with (String c (String c' tail)).
      cbn [skip_white_space]. rewrite Hws, Hminus, Hplus, Hdv.
      cbn [read_digits]. rewrite Hc'.
      apply Z.ltb_ge in Hneg. f_equal. f_equal. lia. }
  exists d. split; [exact Hd |]. split; [exact Hparse |].
  unfold collectItems. simpl map. rewrite Hparse. f_equal. f_equal.
  unfold or_else. rewrite truthy_num_of_Z.
  assert (0 < 10 ^ 21)%Z as Hbig by reflexivity.
  assert ((Z.sgn z * d =? 0)%Z = false) as -> by (apply Z.eqb_neq; nia).
  reflexivity.
Qed.

(** ** The statements above at concrete inputs *)





Lemma ret_leaves_world : leaves_world (ret tt).
Proof. intros w. reflexivity. Qed.

Lemma throw_leaves_world (e : string) : leaves_world (throw e).
Proof. intros w. reflexivity. Qed.

(** Nine clicks on the add button, a tenth, and a click on a remove
    button, with a renderer that throws. *)
Lemma option_count_stays_within_bounds_witness :
  (2 <= List.length
          (options
             (after_events (throw "TypeError") (ret tt)
                (repeat AddClick 10
                   ++ [OptionsClick (mkTarget false true "" (JString "0") "")])
                (snd (initialize (throw "TypeError") (ret tt)
                        (initial_world [] half)))))
   <= 10)%nat.
Proof.
  apply (option_count_stays_within_bounds (throw "TypeError") (ret tt)).
  - apply throw_leaves_world.
  - apply ret_leaves_world.
Defined.

(** No event at all. *)
Lemma too_few_options_alert_unreachable_witness :
  alerts (snd (runSimulation
                 (snd (initialize (ret tt) (ret tt) (initial_world [] half)))))
  = [].
Proof.
  apply (too_few_options_alert_unreachable (ret tt) (ret tt)
           ret_leaves_world ret_leaves_world [] (initial_world [] half)).
Defined.

(** Three options, the middle one removed. *)
Lemma removeOption_deletes_position_witness :
  options
    (snd (removeOption (ret tt) (ret tt) (num_of_nat 1)
            (initial_world
               [mkOpt "A" (JInteger 1); mkOpt "B" (JInteger 2);
                mkOpt "C" (JInteger 3)] half)))
  = [mkOpt "A" (JInteger 1); mkOpt "C" (JInteger 3)].
Proof.
  apply (removeOption_deletes_position (ret tt) (ret tt)
           ret_leaves_world ret_leaves_world 1
           (initial_world
              [mkOpt "A" (JInteger 1); mkOpt "B" (JInteger 2);
               mkOpt "C" (JInteger 3)] half)).
  simpl. lia.
Defined.

(** The two options the page starts with. *)
Lemma add_then_remove_last_restores_witness :
  options
    (snd (removeOption (ret tt) (ret tt) (num_of_nat 2)
            (snd (addOption (ret tt) (ret tt)
                    (initial_world default_options half)))))
  = default_options.
Proof.
  apply (add_then_remove_last_restores (ret tt) (ret tt)
           ret_leaves_world ret_leaves_world
           (initial_world default_options half)).
  simpl. lia.
Defined.

(** A new name for the second of the two options. *)
Lemma updateOption_changes_one_option_witness :
  List.length
    (options (snd (updateOption (ret tt) (num_of_nat 1) (SetName "tea")
                     (initial_world default_options half))))
  = 2%nat.
Proof.
  apply (updateOption_changes_one_option (ret tt) ret_leaves_world
           (num_of_nat 1) (SetName "tea")
           (initial_world default_options half)).
Defined.





(** The weight 10^21, which prints as [1e+21]. *)
Lemma huge_weight_collapses_to_one_digit_witness :
  exists d : Z,
    (1 <= d <= 9)%Z /\
    collectItems [mkOpt "A" (JInteger (10 ^ 21))]
    = [mkItem "A" (num_of_Z (Z.sgn (10 ^ 21) * d))].
Proof.
  destruct (huge_weight_collapses_to_one_digit "A" (10 ^ 21))
    as [d [H1 [_ H2]]].
  - vm_compute. discriminate.
  - exists d. split; assumption.
Defined.

(** ** When the wheel has stopped *)

Lemma truncate_floor (q : Q) : 0 <= q -> truncate q = Qfloor q.
Proof.
  intros H. unfold truncate. apply Qle_bool_iff in H. rewrite H. reflexivity.
Qed.

(** X18. When the timer of [spin] fires, the result text names the winner
    and the button is enabled again; for a rotation that is not negative
    the canvas is left at an angle of [0, 360) that differs from the
    rotation by whole turns, so the wheel does not move. *)
Theorem spinFinished_keeps_wheel_position (winner : item) (rot : Q)
        (w : world) :
  0 <= rot ->
  exists final turns,
    fst (spinFinished winner (Fin rot) w) = Normal (Fin final) /\
    0 <= final < 360 /\
    rot == final + 360 * inject_Z turns /\
    resultText (snd (spinFinished winner (Fin rot) w))
    = "結果: " ++ name winner /\
    spinButton_disabled (snd (spinFinished winner (Fin rot) w)) = false.
Proof.
  intros Hrot.
  exists (rot - inject_Z (truncate (rot / 360)) * 360), (truncate (rot / 360)).
  assert (spinFinished winner (Fin rot) w
          = (Normal (Fin (rot - inject_Z (truncate (rot / 360)) * 360)),
             set_spinButton_disabled false
               (set_resultText ("結果: " ++ name winner) w))) as ->
      by reflexivity.
  cbn [fst snd].
  assert (0 <= rot / 360) as Hq by (apply Qle_shift_div_l; lra).
  rewrite (truncate_floor _ Hq).
  pose proof (Qfloor_le (rot / 360)) as Hlo.
  pose proof (Qlt_floor (rot / 360)) as Hhi.
  rewrite inject_Z_plus in Hhi.
  set (k := inject_Z (Qfloor (rot / 360))) in *.
  assert (rot / 360 * 360 == rot) as Hmul by (field).
  assert (k * 360 <= rot) as H1.
  { rewrite <- Hmul. apply Qmult_le_compat_r; lra. }
  assert (rot < (k + inject_Z 1) * 360) as H2.
  { rewrite <- Hmul at 1. apply Qmult_lt_compat_r; lra. }
  change (inject_Z 1) with 1 in H2.
  split; [reflexivity |]. split; [split; lra |].
  split; [ring |]. split; reflexivity.
Qed.

(** A rotation of 2070 degrees: 270 degrees after five turns. *)
Lemma spinFinished_keeps_wheel_position_witness :
  exists final,
    fst (spinFinished (mkItem "A" (Fin 1)) (Fin 2070)
           (initial_world default_options half))
    = Normal (Fin final) /\
    0 <= final < 360.
Proof.
  destruct (spinFinished_keeps_wheel_position (mkItem "A" (Fin 1)) 2070
              (initial_world default_options half))
    as [final [turns [H1 [H2 _]]]].
  - discriminate.
  - exists final. split; assumption.
Defined.
